(** * bridge.js: a Minecraft log to chat-room bridge

    A shallow embedding of [src/bridge.js] (the log-line parser, the
    outbound WebSocket queue, the HTTP relay to RCON and the cookie
    renewal) and of the batch converter [src/log_parser.js], followed by
    the properties of the specification and further properties of the code.

    JavaScript strings are sequences of UTF-16 code units: they are
    modelled as [list N].  Times are integer milliseconds ([Date.now()]),
    modelled as [Z]. *)

From Stdlib Require Import ZArith NArith Ascii String List Lia Bool DecimalString.
From stdpp Require Import base list.
From Stdlib Require Import Sorted.
Import ListNotations.

Local Open Scope list_scope.
Local Set Warnings "-register-all".

(* ===================================================================== *)
(** ** Strings *)
(* ===================================================================== *)

Abbreviation jsstring := (list N).

(** A literal of the source, as code units. *)
Fixpoint u (s : string) : jsstring :=
  match s with
  | EmptyString => []
  | String c s' => N_of_ascii c :: u s'
  end.
Arguments u _%_string.

(** [l] is a prefix of [s]: the rest of [s] after [l]. *)
Fixpoint strip_prefix (l s : jsstring) : option jsstring :=
  match l, s with
  | [], _ => Some s
  | a :: l', b :: s' => if N.eqb a b then strip_prefix l' s' else None
  | _ :: _, [] => None
  end.

(** [String.prototype.includes]. *)
Fixpoint includes (needle hay : jsstring) : bool :=
  match strip_prefix needle hay with
  | Some _ => true
  | None => match hay with
            | [] => false
            | _ :: hay' => includes needle hay'
            end
  end.

(** Decimal rendering of a non-negative integer, as [Number.prototype.toString]
    and [toFixed(0)] print it. *)
Definition decimal (n : Z) : jsstring :=
  u (NilZero.string_of_uint (N.to_uint (Z.to_N n))).

(* ===================================================================== *)
(** ** Regular expressions

    The fragment of ECMAScript regular expressions the source uses:
    literals, character classes, greedy [*] and [+] over a class, [{2}],
    sequence, alternation, a greedy optional group and capture groups.
    Matching is the backtracking matcher of the language definition,
    written with continuations. *)
(* ===================================================================== *)

Inductive regex :=
| Lit (l : jsstring)
| Cls (p : N -> bool)
| Star (p : N -> bool)
| Seq (r1 r2 : regex)
| Alt (r1 r2 : regex)
| Opt (r : regex)
| Grp (i : nat) (r : regex).

(** Captures: the most recent binding of a group comes first. *)
Abbreviation caps := (list (nat * jsstring)).

Fixpoint star_k {R} (p : N -> bool) (s : jsstring)
    (k : jsstring -> option R) : option R :=
  match s with
  | a :: s' =>
      if p a then
        match star_k p s' k with
        | Some x => Some x
        | None => k s
        end
      else k s
  | [] => k s
  end.

Fixpoint rmatch {R} (r : regex) (s : jsstring) (c : caps)
    (k : jsstring -> caps -> option R) : option R :=
  match r with
  | Lit l =>
      match strip_prefix l s with
      | Some s' => k s' c
      | None => None
      end
  | Cls p =>
      match s with
      | a :: s' => if p a then k s' c else None
      | [] => None
      end
  | Star p => star_k p s (fun s' => k s' c)
  | Seq r1 r2 => rmatch r1 s c (fun s' c' => rmatch r2 s' c' k)
  | Alt r1 r2 =>
      match rmatch r1 s c k with
      | Some x => Some x
      | None => rmatch r2 s c k
      end
  | Opt r1 =>
      match rmatch r1 s c k with
      | Some x => Some x
      | None => k s c
      end
  | Grp i r1 =>
      rmatch r1 s c
        (fun s' c' => k s' ((i, firstn (length s - length s') s) :: c'))
  end.

(** The result of a successful match: where it starts, the text before
    it, the matched text, the text after it, and the captures. *)
Record match_result := {
  m_before : jsstring;
  m_text : jsstring;
  m_after : jsstring;
  m_caps : caps
}.

(** [RegExp.prototype.exec] for a regex without flags: the match at the
    leftmost start index that has one. [pre] is the text already skipped,
    reversed. *)
Fixpoint exec_from (r : regex) (pre s : jsstring) : option match_result :=
  match rmatch r s [] (fun s' c => Some (s', c)) with
  | Some (s', c) =>
      Some {| m_before := rev pre;
              m_text := firstn (length s - length s') s;
              m_after := s';
              m_caps := c |}
  | None =>
      match s with
      | [] => None
      | a :: s' => exec_from r (a :: pre) s'
      end
  end.

(** [line.match(re)]. *)
Definition js_match (r : regex) (s : jsstring) : option match_result :=
  exec_from r [] s.

(** [m[i]] inside a template literal: a group that did not take part
    prints as [undefined]. *)
Fixpoint lookup_cap (i : nat) (c : caps) : option jsstring :=
  match c with
  | [] => None
  | (j, v) :: c' => if Nat.eqb i j then Some v else lookup_cap i c'
  end.

Definition grp (m : match_result) (i : nat) : jsstring :=
  match lookup_cap i (m_caps m) with
  | Some v => v
  | None => u "undefined"
  end.

(** Character classes. *)
Definition is_digit (a : N) : bool := (48 <=? a)%N && (a <=? 57)%N.
Definition is_word (a : N) : bool :=
  ((97 <=? a)%N && (a <=? 122)%N) || ((65 <=? a)%N && (a <=? 90)%N)
  || is_digit a || (a =? 95)%N.
Definition is_line_terminator (a : N) : bool :=
  (a =? 10)%N || (a =? 13)%N || (a =? 8232)%N || (a =? 8233)%N.
Definition dot (a : N) : bool := negb (is_line_terminator a).
Definition not_char (x : string) (a : N) : bool :=
  negb (existsb (N.eqb a) (u x)).

Definition Plus (p : N -> bool) : regex := Seq (Cls p) (Star p).
Definition Rep2 (p : N -> bool) : regex := Seq (Cls p) (Cls p).
Definition L (s : string) : regex := Lit (u s).
Arguments L _%_string.

Fixpoint seqs (rs : list regex) : regex :=
  match rs with
  | [] => Lit []
  | [r] => r
  | r :: rs' => Seq r (seqs rs')
  end.

Fixpoint alts (rs : list regex) : regex :=
  match rs with
  | [] => Lit []
  | [r] => r
  | r :: rs' => Alt r (alts rs')
  end.

(** [\[\d{2}:\d{2}:\d{2}\] ] *)
Definition re_time : regex :=
  seqs [L "["; Rep2 is_digit; L ":"; Rep2 is_digit; L ":"; Rep2 is_digit; L "] "].

(** [\[Server thread\/INFO\]: ] *)
Definition re_server : regex := L "[Server thread/INFO]: ".

Definition chatRe : regex :=
  seqs [re_time; L "[Async Chat Thread - #"; Plus is_digit; L "/INFO]: ";
        Opt (seqs [L "["; Plus (not_char "]"); L "] "]);
        L "<"; Grp 1 (Plus (not_char ">")); L "> "; Grp 2 (Plus dot)].

Definition joinRe : regex :=
  seqs [re_time; re_server; Grp 1 (Plus is_word); L " joined the game"].

Definition leaveRe : regex :=
  seqs [re_time; re_server; Grp 1 (Plus is_word); L " left the game"].

Definition welcome_tail : string :=
  ", sunshine! Just wanted to send a little virtual hug your way. Hope your day is as awesome as you are! Have a fantastic time here on Salmonized Workspace!".

Definition welcomeRe : regex :=
  seqs [re_time; re_server; L "Hey "; Grp 1 (Plus is_word); L welcome_tail].

Definition advRe : regex :=
  seqs [re_time; re_server; Grp 1 (Plus is_word); L " ";
        Grp 2 (alts [L "has made the advancement"; L "has reached the goal";
                     L "has completed the challenge"]);
        L " ["; Grp 3 (Plus dot); L "]"].

Definition death_verbs : list string :=
  ["was"; "walked"; "drowned"; "died"; "experienced"; "blew"; "hit"; "fell";
   "went"; "burned"; "tried"; "discovered"; "froze"; "starved"; "suffocated";
   "left"; "withered"; "didn't"]%string.

Definition deathRe : regex :=
  seqs [re_time; re_server; Grp 1 (Plus is_word); L " ";
        Grp 2 (Seq (alts (map (fun v => Lit (u v)) death_verbs)) (Star dot))].


(* ===================================================================== *)
(** ** The outbound bridge: sockets, timers, queue

    The program variables are [ws], [msgQueue], [idleTimer] and
    [CONFIG.COOKIE]; the rest of the record is the part of the runtime the
    program acts on: the WebSocket objects created so far, the pending
    timers, the clock, and the frames handed to the transport. *)
(* ===================================================================== *)

Local Open Scope Z_scope.

(** A call either returns or throws; both carry the state reached. *)
Inductive completion (A : Type) :=
| Normal (a : A)
| Throw (a : A).
Arguments Normal {A} a.
Arguments Throw {A} a.

Inductive readyState := CONNECTING | OPEN | CLOSING | CLOSED.

Record socket := {
  sock_state : readyState;
  sock_cookie : jsstring;      (* the Cookie header it was created with *)
  sock_closes : nat            (* calls of its close() *)
}.

(** An element of [msgQueue]: [{ text, time }]. *)
Record msg := { text : jsstring; time : Z }.

(** The two closures the program passes to [setTimeout]. *)
Inductive callback := IdleCheck | ReconnectCheck.

Record timer := { tid : nat; due : Z; cb : callback }.

Record bridge := {
  ws : option nat;                  (* [ws]: undefined, or a socket *)
  msgQueue : list msg;
  idleTimer : option nat;           (* [idleTimer]: null, or a timer *)
  COOKIE : jsstring;                (* [CONFIG.COOKIE] *)
  sockets : list socket;            (* every [new WebSocket], by creation *)
  timers : list timer;              (* pending timers *)
  next_timer : nat;
  clock : Z;                        (* [Date.now()] *)
  wire : list (nat * jsstring);     (* frames accepted by [send], in order *)
  send_script : list bool           (* does the next [send] return? *)
}.

Definition set_ws (v : option nat) (st : bridge) : bridge :=
  {| ws := v; msgQueue := msgQueue st; idleTimer := idleTimer st;
     COOKIE := COOKIE st; sockets := sockets st; timers := timers st;
     next_timer := next_timer st; clock := clock st; wire := wire st;
     send_script := send_script st |}.

Definition set_msgQueue (v : list msg) (st : bridge) : bridge :=
  {| ws := ws st; msgQueue := v; idleTimer := idleTimer st;
     COOKIE := COOKIE st; sockets := sockets st; timers := timers st;
     next_timer := next_timer st; clock := clock st; wire := wire st;
     send_script := send_script st |}.

Definition set_idleTimer (v : option nat) (st : bridge) : bridge :=
  {| ws := ws st; msgQueue := msgQueue st; idleTimer := v;
     COOKIE := COOKIE st; sockets := sockets st; timers := timers st;
     next_timer := next_timer st; clock := clock st; wire := wire st;
     send_script := send_script st |}.

Definition set_sockets (v : list socket) (st : bridge) : bridge :=
  {| ws := ws st; msgQueue := msgQueue st; idleTimer := idleTimer st;
     COOKIE := COOKIE st; sockets := v; timers := timers st;
     next_timer := next_timer st; clock := clock st; wire := wire st;
     send_script := send_script st |}.

Definition set_timers (v : list timer) (n : nat) (st : bridge) : bridge :=
  {| ws := ws st; msgQueue := msgQueue st; idleTimer := idleTimer st;
     COOKIE := COOKIE st; sockets := sockets st; timers := v;
     next_timer := n; clock := clock st; wire := wire st;
     send_script := send_script st |}.

Definition set_clock (v : Z) (st : bridge) : bridge :=
  {| ws := ws st; msgQueue := msgQueue st; idleTimer := idleTimer st;
     COOKIE := COOKIE st; sockets := sockets st; timers := timers st;
     next_timer := next_timer st; clock := v; wire := wire st;
     send_script := send_script st |}.

Definition set_wire (v : list (nat * jsstring)) (sc : list bool)
    (st : bridge) : bridge :=
  {| ws := ws st; msgQueue := msgQueue st; idleTimer := idleTimer st;
     COOKIE := COOKIE st; sockets := sockets st; timers := timers st;
     next_timer := next_timer st; clock := clock st; wire := v;
     send_script := sc |}.

(** [ws.readyState], when [ws] is defined. *)
Definition ws_readyState (st : bridge) : option readyState :=
  match ws st with
  | Some i => sock_state <$> (sockets st !! i)
  | None => None
  end.

(** [ws && ws.readyState === WebSocket.OPEN] *)
Definition is_open (st : bridge) : bool :=
  match ws_readyState st with
  | Some OPEN => true
  | _ => false
  end.

(** *** The runtime: timers *)

Definition setTimeout (c : callback) (delay : Z) (st : bridge) : nat * bridge :=
  let id := next_timer st in
  (id, set_timers (timers st ++ [{| tid := id; due := clock st + delay; cb := c |}])
                  (S id) st).

Definition clearTimeout (id : nat) (st : bridge) : bridge :=
  set_timers (List.filter (fun t => negb (Nat.eqb (tid t) id)) (timers st))
             (next_timer st) st.

(** *** The runtime: the [ws] library *)

Definition with_state (s : readyState) (k : socket) : socket :=
  {| sock_state := s; sock_cookie := sock_cookie k; sock_closes := sock_closes k |}.

(** [ws.close()]: an open or connecting socket starts closing; a closing or
    closed one stays as it is. [undefined.close()] throws. *)
Definition close_socket (k : socket) : socket :=
  {| sock_state := match sock_state k with
                   | CONNECTING | OPEN | CLOSING => CLOSING
                   | CLOSED => CLOSED
                   end;
     sock_cookie := sock_cookie k;
     sock_closes := S (sock_closes k) |}.

Definition ws_close (st : bridge) : completion bridge :=
  match ws st with
  | Some i => Normal (set_sockets (alter close_socket i (sockets st)) st)
  | None => Throw st
  end.

(** [ws.send(data)], without a callback: throws while connecting, drops the
    data after the socket started closing, and on an open socket hands the
    frame to the transport, unless the call throws, which the script of
    the run decides ([false]: this call throws; an exhausted script: every
    call returns). *)
Definition ws_send (data : jsstring) (st : bridge) : completion bridge :=
  match ws st with
  | None => Throw st
  | Some i =>
      match sock_state <$> (sockets st !! i) with
      | Some OPEN =>
          match send_script st with
          | false :: sc => Throw (set_wire (wire st) sc st)
          | sc => Normal (set_wire (wire st ++ [(i, data)]) (tl sc) st)
          end
      | Some CONNECTING | None => Throw st
      | Some CLOSING | Some CLOSED => Normal st
      end
  end.

(** *** The program *)

(** [connect()]. The URL of the configuration is taken to be well formed,
    so that [new WebSocket] returns. *)
Definition connect (st : bridge) : bridge :=
  match ws_readyState st with
  | Some OPEN | Some CONNECTING => st
  | _ =>
      set_ws (Some (length (sockets st)))
        (set_sockets
           (sockets st ++
              [{| sock_state := CONNECTING; sock_cookie := COOKIE st;
                  sock_closes := 0%nat |}]) st)
  end.

(** [resetIdleTimer()] *)
Definition resetIdleTimer (st : bridge) : bridge :=
  let st1 := match idleTimer st with
             | Some id => clearTimeout id st
             | None => st
             end in
  let (id, st2) := setTimeout IdleCheck (10 * 60 * 1000) st1 in
  set_idleTimer (Some id) st2.

(** [latency.toFixed(0)] for [latency = ms / 1000]: the nearest integer, the
    larger one on a tie. [ms] is an integer, so the tie is [ms = 1000 k + 500]
    exactly, also in floating point. *)
Definition toFixed0_of_ms (ms : Z) : jsstring := decimal ((ms + 500) / 1000).

(** The text sent for a queued message at time [now]; [latency > 5], with
    [latency = (now - msg.time) / 1000], is [now - msg.time > 5000]. *)
Definition finalText (now : Z) (m : msg) : jsstring :=
  let ms := now - time m in
  if 5000 <? ms then text m ++ u " (delayed " ++ toFixed0_of_ms ms ++ u "s)"
  else text m.

(** The [while] loop of [flushMsgQueue]; [q] is [msgQueue] at the test. The
    clock does not move inside a handler: every [Date.now()] of one flush
    reads the same time. *)
Fixpoint flush_loop (q : list msg) (st : bridge) : completion bridge :=
  match q with
  | [] => Normal st
  | m :: q' =>
      let st1 := set_msgQueue q' st in               (* msgQueue.shift() *)
      match ws_send (finalText (clock st1) m) st1 with
      | Normal st2 => flush_loop q' st2
      | Throw st2 => Throw st2
      end
  end.

(** [flushMsgQueue()] *)
Definition flushMsgQueue (st : bridge) : completion bridge :=
  if negb (is_open st) then Normal st
  else
    match flush_loop (msgQueue st) st with
    | Normal st' => Normal (resetIdleTimer st')
    | Throw st' => Throw st'
    end.

(** [sendToChatroom(text)] *)
Definition sendToChatroom (t : jsstring) (st : bridge) : completion bridge :=
  let st1 := set_msgQueue (msgQueue st ++ [{| text := t; time := clock st |}]) st in
  if is_open st1 then flushMsgQueue st1
  else Normal (connect st1).

(** The handlers [connect] installs on a socket. *)
Definition on_open (st : bridge) : completion bridge := flushMsgQueue st.

Definition on_close (st : bridge) : completion bridge :=
  Normal (snd (setTimeout ReconnectCheck 5000 st)).

Definition on_error (st : bridge) : completion bridge := ws_close st.

(** The bodies of the two timer callbacks. *)
Definition run_callback (c : callback) (st : bridge) : completion bridge :=
  match c with
  | IdleCheck => if is_open st then ws_close st else Normal st
  | ReconnectCheck =>
      match msgQueue st with
      | [] => Normal st
      | _ :: _ => Normal (connect st)
      end
  end.

(** [handleLogLine(line)] *)
Definition handleLogLine (line : jsstring) (st : bridge) : completion bridge :=
  if negb (includes (u "/INFO]") line) then Normal st
  else
    match js_match chatRe line with
    | Some m => sendToChatroom (u "[CHAT] <" ++ grp m 1 ++ u "> " ++ grp m 2) st
    | None =>
    match js_match joinRe line with
    | Some m => sendToChatroom (u "[INFO] " ++ grp m 1 ++ u " joined the game") st
    | None =>
    match js_match leaveRe line with
    | Some m => sendToChatroom (u "[INFO] " ++ grp m 1 ++ u " left the game") st
    | None =>
    match js_match welcomeRe line with
    | Some m => sendToChatroom (u "[INFO] Hey " ++ grp m 1 ++ u welcome_tail) st
    | None =>
    match js_match advRe line with
    | Some m =>
        sendToChatroom
          (u "[INFO] " ++ grp m 1 ++ u " " ++ grp m 2 ++ u " [" ++ grp m 3 ++ u "]") st
    | None =>
    match js_match deathRe line with
    | Some m => sendToChatroom (u "[INFO] " ++ grp m 1 ++ u " " ++ grp m 2) st
    | None => Normal st
    end end end end end end.

(** *** The event loop

    What the runtime can deliver to the program: time passing, a line of
    the followed log, the events of a socket, a timer that is due. An event
    that cannot happen in a state (a socket that is not connecting opens, a
    timer fires early) leaves it as it is. *)
Inductive event :=
| Tick (dt : Z)
| Line (line : jsstring)
| WsOpen (i : nat)
| WsClose (i : nat)
| WsError (i : nat)
| Fire (id : nat).

Definition socket_state (i : nat) (st : bridge) : option readyState :=
  sock_state <$> (sockets st !! i).

Definition set_socket_state (i : nat) (s : readyState) (st : bridge) : bridge :=
  set_sockets (alter (with_state s) i (sockets st)) st.

Definition find_timer (id : nat) (st : bridge) : option timer :=
  List.find (fun t => Nat.eqb (tid t) id) (timers st).

Definition step (e : event) (st : bridge) : completion bridge :=
  match e with
  | Tick dt => if 0 <=? dt then Normal (set_clock (clock st + dt) st) else Normal st
  | Line l => handleLogLine l st
  | WsOpen i =>
      match socket_state i st with
      | Some CONNECTING => on_open (set_socket_state i OPEN st)
      | _ => Normal st
      end
  | WsClose i =>
      match socket_state i st with
      | Some CLOSED | None => Normal st
      | Some _ => on_close (set_socket_state i CLOSED st)
      end
  | WsError i =>
      match socket_state i st with
      | Some CLOSED | None => Normal st
      | Some _ => on_error (set_socket_state i CLOSING st)
      end
  | Fire id =>
      match find_timer id st with
      | Some t =>
          if due t <=? clock st
          then run_callback (cb t) (clearTimeout id st)
          else Normal st
      | None => Normal st
      end
  end.

(** A run of the process: an uncaught exception ends it. *)
Fixpoint run (evs : list event) (st : bridge) : completion bridge :=
  match evs with
  | [] => Normal st
  | e :: evs' =>
      match step e st with
      | Normal st' => run evs' st'
      | Throw st' => Throw st'
      end
  end.

Definition state_of {A} (c : completion A) : A :=
  match c with Normal a | Throw a => a end.

(** The state before the first statement of the program, and after its
    last ([connect(); startTailing();]). *)
Definition boot (cookie : jsstring) (script : list bool) : bridge :=
  {| ws := None; msgQueue := []; idleTimer := None; COOKIE := cookie;
     sockets := []; timers := []; next_timer := 0%nat; clock := 0; wire := [];
     send_script := script |}.

Definition started (cookie : jsstring) (script : list bool) : bridge :=
  connect (boot cookie script).

(** *** The ordered rule list of the specification

    The six rules in the order the specification numbers them, each with
    its renderer; [parse] takes the first rule that matches. *)
Record rule := { rule_re : regex; rule_fmt : match_result -> jsstring }.

Definition chat_rule : rule :=
  {| rule_re := chatRe;
     rule_fmt := fun m => u "[CHAT] <" ++ grp m 1 ++ u "> " ++ grp m 2 |}.
Definition join_rule : rule :=
  {| rule_re := joinRe;
     rule_fmt := fun m => u "[INFO] " ++ grp m 1 ++ u " joined the game" |}.
Definition leave_rule : rule :=
  {| rule_re := leaveRe;
     rule_fmt := fun m => u "[INFO] " ++ grp m 1 ++ u " left the game" |}.
Definition welcome_rule : rule :=
  {| rule_re := welcomeRe;
     rule_fmt := fun m => u "[INFO] Hey " ++ grp m 1 ++ u welcome_tail |}.
Definition adv_rule : rule :=
  {| rule_re := advRe;
     rule_fmt := fun m =>
       u "[INFO] " ++ grp m 1 ++ u " " ++ grp m 2 ++ u " [" ++ grp m 3 ++ u "]" |}.
Definition death_rule : rule :=
  {| rule_re := deathRe;
     rule_fmt := fun m => u "[INFO] " ++ grp m 1 ++ u " " ++ grp m 2 |}.

Definition rules : list rule :=
  [chat_rule; join_rule; leave_rule; welcome_rule; adv_rule; death_rule].

Fixpoint first_match (rs : list rule) (line : jsstring) : option jsstring :=
  match rs with
  | [] => None
  | r :: rs' =>
      match js_match (rule_re r) line with
      | Some m => Some (rule_fmt r m)
      | None => first_match rs' line
      end
  end.

Definition parse (line : jsstring) : option jsstring :=
  if includes (u "/INFO]") line then first_match rules line else None.



(* ===================================================================== *)
(** ** JavaScript values

    The values [JSON.parse] produces. Numbers are modelled where they are
    integers, which covers a NumericDate [exp] and the clock. *)
(* ===================================================================== *)

Inductive jsval :=
| JNull
| JBool (b : bool)
| JNum (z : Z)
| JStr (s : jsstring)
| JArr (items : list jsval)
| JObj (fields : list (jsstring * jsval)).

Definition jsstring_eqb (a b : jsstring) : bool :=
  bool_decide (a = b).

(** [ToBoolean] *)
Definition truthy (v : jsval) : bool :=
  match v with
  | JNull => false
  | JBool b => b
  | JNum z => negb (z =? 0)
  | JStr s => match s with [] => false | _ => true end
  | JArr _ | JObj _ => true
  end.

(** [ToBoolean] of a configuration value or header: a string or undefined. *)
Definition truthy_str (v : option jsstring) : bool :=
  match v with
  | Some (_ :: _) => true
  | _ => false
  end.

(** The result of reading a property. *)
Inductive lookup_result :=
| TypeError                   (* the base is null *)
| Undefined
| Found (v : jsval).

Fixpoint own_field (key : jsstring) (fields : list (jsstring * jsval)) : lookup_result :=
  match fields with
  | [] => Undefined
  | (k, v) :: fields' =>
      if jsstring_eqb k key then Found v else own_field key fields'
  end.

(** [v.key] for a key that no prototype defines ([command], [exp],
    [success], [token]): an own field of an object, undefined on any other
    value, a TypeError on null. *)
Definition get (v : jsval) (key : jsstring) : lookup_result :=
  match v with
  | JNull => TypeError
  | JObj fields => own_field key fields
  | _ => Undefined
  end.

Definition truthy_result (r : lookup_result) : bool :=
  match r with
  | Found v => truthy v
  | _ => false
  end.

(* ===================================================================== *)
(** ** The HTTP relay *)
(* ===================================================================== *)

Record config := {
  BRIDGE_TOKEN : option jsstring;
  RCON_PASSWORD : option jsstring
}.

(** A request whose body has been received in full. *)
Record request := {
  method : jsstring;
  url : jsstring;
  authorization : option jsstring;     (* [req.headers['authorization']] *)
  body : jsstring
}.

(** What the runtime and the remote console answer during one request:
    [None] is a call that throws or a promise that rejects. *)
Record relay_world := {
  JSON_parse_body : option jsval;      (* [JSON.parse(body)] *)
  rcon_connect : option unit;          (* [Rcon.connect(...)] *)
  rcon_send : option jsstring;         (* [rcon.send(command)] *)
  rcon_end : option unit               (* [rcon.end()]; caught either way *)
}.

Inductive rcon_call :=
| RconConnect
| RconSend (command : jsval)
| RconEnd.

Record response := { status : Z; payload : jsstring }.

(** [sendRconCommand(command)]: the calls made on the remote console. Every
    failure is caught inside, so the promise always resolves. *)
Definition sendRconCommand (cfg : config) (w : relay_world) (command : jsval)
    : list rcon_call :=
  if negb (truthy_str (RCON_PASSWORD cfg)) then []
  else
    match rcon_connect w with
    | None => [RconConnect]
    | Some _ =>
        match rcon_send w with
        | None => [RconConnect; RconSend command]
        | Some _ => [RconConnect; RconSend command; RconEnd]
        end
    end.

(** The request listener of [httpServer]. *)
Definition httpServer (cfg : config) (w : relay_world) (req : request)
    : response * list rcon_call :=
  if jsstring_eqb (method req) (u "POST") && jsstring_eqb (url req) (u "/") then
    if truthy_str (BRIDGE_TOKEN cfg)
       && negb (bool_decide
                  (authorization req
                   = Some (u "Bearer " ++ default [] (BRIDGE_TOKEN cfg))))
    then ({| status := 401; payload := u "Unauthorized" |}, [])
    else
      match JSON_parse_body w with
      | None => ({| status := 500; payload := u "Internal Error" |}, [])
      | Some data =>
          match get data (u "command") with
          | TypeError => ({| status := 500; payload := u "Internal Error" |}, [])
          | Undefined => ({| status := 400; payload := u "Missing command" |}, [])
          | Found command =>
              if truthy command
              then ({| status := 200; payload := u "OK" |},
                    sendRconCommand cfg w command)
              else ({| status := 400; payload := u "Missing command" |}, [])
          end
      end
  else ({| status := 404; payload := u "Not Found" |}, []).

(* ===================================================================== *)
(** ** Cookie renewal *)
(* ===================================================================== *)

(** [s.split(sep)] for a one-character separator. *)
Fixpoint split_on (sep : N) (s : jsstring) : list jsstring :=
  match s with
  | [] => [[]]
  | a :: s' =>
      if N.eqb a sep then [] :: split_on sep s'
      else
        match split_on sep s' with
        | w :: ws => (a :: w) :: ws
        | [] => [[a]]
        end
  end.

(** The replacement text of [String.prototype.replace] for a pattern
    without capture groups: [$$], [$&], [$`] and [$'] are expanded, any
    other [$] is kept. *)
Fixpoint expand (repl : jsstring) (m : match_result) : jsstring :=
  match repl with
  | [] => []
  | a :: r =>
      if N.eqb a 36 then
        match r with
        | b :: r' =>
            if N.eqb b 36 then 36%N :: expand r' m
            else if N.eqb b 38 then m_text m ++ expand r' m
            else if N.eqb b 96 then m_before m ++ expand r' m
            else if N.eqb b 39 then m_after m ++ expand r' m
            else a :: expand r m
        | [] => [a]
        end
      else a :: expand r m
  end.

(** [s.replace(re, repl)] for a regex without flags. *)
Definition replace_first (re : regex) (repl s : jsstring) : jsstring :=
  match js_match re s with
  | Some m => m_before m ++ expand repl m ++ m_after m
  | None => s
  end.

(** [/session=([^;]+)/] and [/COOKIE=.*/] *)
Definition sessionRe : regex := Seq (L "session=") (Grp 1 (Plus (not_char ";"))).
Definition cookieLineRe : regex := Seq (L "COOKIE=") (Star dot).

Record token_response := {
  tok_ok : bool;                      (* [tokenRes.ok] *)
  tok_status : Z;
  tok_json : option jsval             (* [await tokenRes.json()] *)
}.

Record login_response := {
  login_ok : bool;
  login_status : Z;
  login_set_cookie : option jsstring  (* [headers.get('set-cookie')] *)
}.

(** What the runtime, the renewal API and the file system answer during
    one renewal check; [None] is a call that throws or a promise that
    rejects. *)
Record renewal_world := {
  decode_claims : jsstring -> option jsval;
      (* [atob], percent-encoding, [decodeURIComponent], [JSON.parse] *)
  ToNumber_other : jsval -> option Z;
      (* [ToNumber] of a string, an array or an object; [None] is NaN *)
  now_ms : Z;                                  (* [Date.now()] *)
  fetch_tokens : option token_response;
  fetch_login : option login_response;
  fs_read_ok : bool;
  fs_write_ok : bool
}.

Inductive api_call :=
| PostTokens (cookie : jsstring)
| PostLogin (access_token : jsval).

(** The errors [performRenewal] catches and reports. *)
Inductive renew_error :=
| TokenRequestNotOk (status : Z)
| InvalidTokenResponse
| LoginNotOk (status : Z)
| NoSetCookie
| OtherError.      (* a rejected promise, a TypeError, a file-system error *)

Inductive log_entry :=
| LogCheck
| LogSkipped                    (* the token could not be read *)
| LogDaysLeft (seconds : option Z)   (* [None]: NaN *)
| LogRenewing
| LogRenewFailed (e : renew_error)
| LogEnvUpdated
| LogEnvMissing.

Record renew_state := {
  cfg_COOKIE : jsstring;              (* [CONFIG.COOKIE] *)
  env_file : option jsstring;         (* the [.env] file, when it exists *)
  api_calls : list api_call;
  console : list log_entry
}.

Definition log (e : log_entry) (st : renew_state) : renew_state :=
  {| cfg_COOKIE := cfg_COOKIE st; env_file := env_file st;
     api_calls := api_calls st; console := console st ++ [e] |}.

Definition call (c : api_call) (st : renew_state) : renew_state :=
  {| cfg_COOKIE := cfg_COOKIE st; env_file := env_file st;
     api_calls := api_calls st ++ [c]; console := console st |}.

Definition set_COOKIE (v : jsstring) (st : renew_state) : renew_state :=
  {| cfg_COOKIE := v; env_file := env_file st;
     api_calls := api_calls st; console := console st |}.

Definition set_env_file (v : jsstring) (st : renew_state) : renew_state :=
  {| cfg_COOKIE := cfg_COOKIE st; env_file := Some v;
     api_calls := api_calls st; console := console st |}.

(** [parseJwt(token)]; [None] is the [null] of the catch clause. *)
Definition parseJwt (w : renewal_world) (token : jsstring) : option jsval :=
  match split_on 46 token !! 1%nat with
  | None => None
  | Some base64Url =>
      decode_claims w
        (map (fun a => if N.eqb a 45 then 43%N
                       else if N.eqb a 95 then 47%N else a) base64Url)
  end.

(** [ToNumber] *)
Definition to_number (w : renewal_world) (v : jsval) : option Z :=
  match v with
  | JNum z => Some z
  | JBool b => Some (if b then 1 else 0)
  | JNull => Some 0
  | _ => ToNumber_other w v
  end.

(** The part of [performRenewal] after the new cookie is in memory. *)
Definition update_env (w : renewal_world) (newSessionPart : jsstring)
    (st : renew_state) : renew_state :=
  match env_file st with
  | Some envContent =>
      if negb (fs_read_ok w) then log (LogRenewFailed OtherError) st
      else
        let envContent' :=
          if includes (u "COOKIE=") envContent
          then replace_first cookieLineRe (u "COOKIE=" ++ newSessionPart) envContent
          else envContent ++ [10%N] ++ u "COOKIE=" ++ newSessionPart in
        if negb (fs_write_ok w) then log (LogRenewFailed OtherError) st
        else log LogEnvUpdated (set_env_file envContent' st)
  | None => log LogEnvMissing st
  end.

(** [performRenewal()] *)
Definition performRenewal (w : renewal_world) (st : renew_state) : renew_state :=
  let st1 := call (PostTokens (cfg_COOKIE st)) st in
  match fetch_tokens w with
  | None => log (LogRenewFailed OtherError) st1
  | Some tokenRes =>
      if negb (tok_ok tokenRes)
      then log (LogRenewFailed (TokenRequestNotOk (tok_status tokenRes))) st1
      else
        match tok_json tokenRes with
        | None => log (LogRenewFailed OtherError) st1
        | Some tokenData =>
            match get tokenData (u "success"), get tokenData (u "token") with
            | TypeError, _ | _, TypeError => log (LogRenewFailed OtherError) st1
            | success, Found accessToken =>
                if negb (truthy_result success) || negb (truthy accessToken)
                then log (LogRenewFailed InvalidTokenResponse) st1
                else
                  let st2 := call (PostLogin accessToken) st1 in
                  match fetch_login w with
                  | None => log (LogRenewFailed OtherError) st2
                  | Some loginRes =>
                      if negb (login_ok loginRes)
                      then log (LogRenewFailed (LoginNotOk (login_status loginRes))) st2
                      else
                        match login_set_cookie loginRes with
                        | None | Some [] => log (LogRenewFailed NoSetCookie) st2
                        | Some setCookieHeader =>
                            let newSessionPart :=
                              hd [] (split_on 59 setCookieHeader) in
                            update_env w newSessionPart
                              (set_COOKIE newSessionPart st2)
                        end
                  end
            | _, Undefined => log (LogRenewFailed InvalidTokenResponse) st1
            end
        end
  end.

(** The [sessionToken] of [renewCookieIfNeeded]: the value of the
    [session=] part of the cookie, or the whole cookie without one. *)
Definition sessionToken (cookie : jsstring) : jsstring :=
  match js_match sessionRe cookie with
  | Some m => grp m 1
  | None => cookie
  end.

(** [renewCookieIfNeeded()] *)
Definition renewCookieIfNeeded (w : renewal_world) (st : renew_state) : renew_state :=
  let st0 := log LogCheck st in
  match parseJwt w (sessionToken (cfg_COOKIE st)) with
  | None => log LogSkipped st0
  | Some payload =>
      if negb (truthy payload) then log LogSkipped st0
      else
        match get payload (u "exp") with
        | Found exp =>
            if negb (truthy exp) then log LogSkipped st0
            else
              let now := now_ms w / 1000 in
              match to_number w exp with
              | Some e =>
                  let timeLeft := e - now in
                  let st1 := log (LogDaysLeft (Some timeLeft)) st0 in
                  (* daysLeft < 10, with daysLeft = timeLeft / (60 * 60 * 24) *)
                  if timeLeft <? 10 * (60 * 60 * 24)
                  then performRenewal w (log LogRenewing st1)
                  else st1
              | None => log (LogDaysLeft None) st0
              end
        | _ => log LogSkipped st0
        end
  end.

(* ===================================================================== *)
(** ** Vocabulary of the properties, and sample inputs *)
(* ===================================================================== *)

(** A line of the server thread: [[HH:MM:SS] [Server thread/INFO]: payload]. *)
Definition server_line (h1 h2 m1 m2 s1 s2 : N) (payload : jsstring) : jsstring :=
  u "[" ++ [h1; h2] ++ u ":" ++ [m1; m2] ++ u ":" ++ [s1; s2] ++ u "] "
  ++ u "[Server thread/INFO]: " ++ payload.

(** A line that both the leave rule and the death rule match. *)
Definition left_today : jsstring :=
  u "[12:00:00] [Server thread/INFO]: Steve left the game today".

(** The frames a flush on socket [i] at time [now] makes of a queue. *)
Definition frames (i : nat) (now : Z) (q : list msg) : list (nat * jsstring) :=
  map (fun m => (i, finalText now m)) q.


(** The transport accepts every frame. *)
Definition never_throws (script : list bool) : Prop :=
  Forall (fun b => b = true) script.


(** [ws] is the socket created last. *)
Definition ws_latest (st : bridge) : Prop :=
  match ws st with
  | None => length (sockets st) = 0%nat
  | Some i => S i = length (sockets st)
  end.


Definition joined_line : jsstring :=
  u "[12:00:00] [Server thread/INFO]: Steve joined the game".

(** Three chat lines, and a run that receives them after the first socket
    was closed and before the second one opens. *)
Definition chat_line (who what : string) : jsstring :=
  u "[12:00:00] [Async Chat Thread - #1/INFO]: <" ++ u who ++ u "> " ++ u what.

Definition abc_run : list event :=
  [WsOpen 0; WsClose 0;
   Line (chat_line "Steve" "A"); Line (chat_line "Steve" "B");
   Line (chat_line "Steve" "C"); WsOpen 1].

(** *** Timers *)

Definition is_idle (t : timer) : bool :=
  match cb t with IdleCheck => true | ReconnectCheck => false end.

Definition is_reconnect (t : timer) : bool :=
  match cb t with ReconnectCheck => true | IdleCheck => false end.

(** The pending timers have distinct identifiers, all handed out already,
    and a pending idle check is the one [idleTimer] refers to. *)
Definition timers_ok (st : bridge) : Prop :=
  NoDup (map tid (timers st))
  /\ Forall (fun t => (tid t < next_timer st)%nat) (timers st)
  /\ Forall (fun t => cb t = IdleCheck -> idleTimer st = Some (tid t)) (timers st).

(** The test of [connect]: is a socket missing? *)
Definition wants_socket (st : bridge) : bool :=
  match ws_readyState st with
  | Some OPEN | Some CONNECTING => false
  | _ => true
  end.

Definition new_socket (st : bridge) : socket :=
  {| sock_state := CONNECTING; sock_cookie := COOKIE st; sock_closes := 0%nat |}.

(** The socket opens and is idle; the server closes it; a second later a
    player joins. *)
Definition enqueue_after_close : list event :=
  [WsOpen 0; WsClose 0; Tick 1000; Line joined_line].

(** The idle socket is closed by the server; a line arrives a second later
    and a socket is created for it, which fails after another second; the
    check armed by the first close then comes due. *)
Definition close_then_retry : list event :=
  [WsOpen 0; WsClose 0; Tick 1000; Line joined_line; Tick 1000; WsClose 1;
   Tick 3000; Fire 1].

(** [msgQueue.length > 0] *)
Definition queue_nonempty (st : bridge) : bool :=
  match msgQueue st with
  | [] => false
  | _ :: _ => true
  end.

(** *** The relay: the conditions of the listener *)




(** *** The renewal: the failures of the exchange *)

Definition token_request_not_ok (w : renewal_world) : Prop :=
  exists r, fetch_tokens w = Some r /\ tok_ok r = false.

Definition invalid_token_response (w : renewal_world) : Prop :=
  exists r data,
    fetch_tokens w = Some r /\ tok_json r = Some data /\
    truthy_result (get data (u "success")) && truthy_result (get data (u "token"))
    = false.

Definition login_not_ok (w : renewal_world) : Prop :=
  exists l, fetch_login w = Some l /\ login_ok l = false.

Definition missing_set_cookie (w : renewal_world) : Prop :=
  exists l, fetch_login w = Some l /\ truthy_str (login_set_cookie l) = false.

(** A request that does not complete, or a body that is not JSON. *)
Definition step_rejected (w : renewal_world) : Prop :=
  fetch_tokens w = None
  \/ (exists r, fetch_tokens w = Some r /\ tok_json r = None)
  \/ fetch_login w = None.

Definition exchange_fails (w : renewal_world) : Prop :=
  token_request_not_ok w \/ invalid_token_response w \/ login_not_ok w
  \/ missing_set_cookie w \/ step_rejected w.

(** *** Sample worlds *)

Definition post_command (auth : option jsstring) : request :=
  {| method := u "POST"; url := u "/"; authorization := auth;
     body := u "{" ++ [34%N] ++ u "command" ++ [34%N] ++ u ":" ++ [34%N]
             ++ u "say hi" ++ [34%N] ++ u "}" |}.

Definition say_hi : jsval := JObj [(u "command", JStr (u "say hi"))].



(** The decoding of the three token payloads used below, [{"exp":0}],
    [{"exp":777600}] (9 days) and [{"exp":950400}] (11 days), from their
    base64 text. *)
Definition claims_decoder (seg : jsstring) : option jsval :=
  if jsstring_eqb seg (u "eyJleHAiOjB9")
  then Some (JObj [(u "exp", JNum 0)])
  else if jsstring_eqb seg (u "eyJleHAiOjc3NzYwMH0")
  then Some (JObj [(u "exp", JNum 777600)])
  else if jsstring_eqb seg (u "eyJleHAiOjk1MDQwMH0")
  then Some (JObj [(u "exp", JNum 950400)])
  else None.

Definition quiet_world (now : Z) : renewal_world :=
  {| decode_claims := claims_decoder;
     ToNumber_other := fun _ => None;
     now_ms := now;
     fetch_tokens := None;
     fetch_login := None;
     fs_read_ok := true;
     fs_write_ok := true |}.

Definition with_cookie (c : jsstring) : renew_state :=
  {| cfg_COOKIE := c; env_file := Some (u "COOKIE=" ++ c);
     api_calls := []; console := [] |}.

(** The console answers; the console cannot be reached; the body is not
    JSON. *)
Definition console_up : relay_world :=
  {| JSON_parse_body := Some say_hi; rcon_connect := Some tt;
     rcon_send := Some (u "ok"); rcon_end := Some tt |}.




(** The token request answers 403. *)
Definition tokens_forbidden : renewal_world :=
  {| decode_claims := claims_decoder;
     ToNumber_other := fun _ => None;
     now_ms := 0;
     fetch_tokens := Some {| tok_ok := false; tok_status := 403; tok_json := None |};
     fetch_login := None;
     fs_read_ok := true;
     fs_write_ok := true |}.

(** *** Proof steps for the matcher

    One step of [rmatch] on a sequence or on a group, leaving the parts
    folded. *)
Ltac seq_step :=
  lazymatch goal with
  | |- rmatch (Seq ?a ?b) ?s ?c ?k = _ =>
      change (rmatch a s c (fun s' c' => rmatch b s' c' k))
        with (rmatch (Seq a b) s c k) || idtac;
      change (rmatch (Seq a b) s c k)
        with (rmatch a s c (fun s' c' => rmatch b s' c' k))
  end.

Ltac grp_step :=
  lazymatch goal with
  | |- rmatch (Grp ?i ?r) ?s ?c ?k = _ =>
      change (rmatch (Grp i r) s c k)
        with (rmatch r s c
                (fun s' c' => k s' ((i, firstn (length s - length s') s) :: c')))
  end.

(** A line of the chat thread:
    [[HH:MM:SS] [Async Chat Thread - #n/INFO]: payload]. *)
Definition chat_thread_line (h1 h2 m1 m2 s1 s2 : N) (n payload : jsstring)
    : jsstring :=
  u "[" ++ [h1; h2] ++ u ":" ++ [m1; m2] ++ u ":" ++ [s1; s2] ++ u "] "
  ++ u "[Async Chat Thread - #" ++ n ++ u "/INFO]: " ++ payload.


(** *** Sockets *)

(** A socket that is open or on its way to be. *)
Definition live (s : readyState) : bool :=
  match s with
  | OPEN | CONNECTING => true
  | CLOSING | CLOSED => false
  end.

(** [ws] is the socket created last, and no other socket is live. *)
Definition one_live_socket (st : bridge) : Prop :=
  ws_latest st
  /\ forall i k, sockets st !! i = Some k -> live (sock_state k) = true ->
                 ws st = Some i.

(** A queued message has something to wait for: a socket that is not
    closed yet, or a pending reconnect check. *)
Definition retry_in_sight (st : bridge) : Prop :=
  msgQueue st = []
  \/ (exists s, ws_readyState st = Some s /\ s <> CLOSED)
  \/ exists t, t ∈ timers st /\ cb t = ReconnectCheck.

(** *** Tokens *)

(** The rewriting of base64url to base64 that [parseJwt] does. *)
Definition from_base64url (seg : jsstring) : jsstring :=
  map (fun a => if N.eqb a 45 then 43%N else if N.eqb a 95 then 47%N else a) seg.

(** No character of [s] is [sep]. *)
Definition free_of (sep : N) (s : jsstring) : bool :=
  forallb (fun a => negb (N.eqb a sep)) s.

(** Both steps of the exchange succeed: the token request answers OK with a
    body whose [success] and [token] are truthy, and the login answers OK
    with a Set-Cookie header. *)
Definition exchange_succeeds (w : renewal_world) (tok : jsval) (h : jsstring)
    : Prop :=
  exists r data l,
    fetch_tokens w = Some r /\ tok_ok r = true /\ tok_json r = Some data
    /\ truthy_result (get data (u "success")) = true
    /\ get data (u "token") = Found tok /\ truthy tok = true
    /\ fetch_login w = Some l /\ login_ok l = true
    /\ login_set_cookie l = Some h /\ h <> [].

(** A renewal API that answers well, with the given Set-Cookie header, and
    a file system that does or does not let the [.env] file be written. *)
Definition renewing_world (set_cookie : jsstring) (writable : bool)
    : renewal_world :=
  {| decode_claims := claims_decoder;
     ToNumber_other := fun _ => None;
     now_ms := 0;
     fetch_tokens :=
       Some {| tok_ok := true; tok_status := 200;
               tok_json := Some (JObj [(u "success", JBool true);
                                       (u "token", JStr (u "at-1"))]) |};
     fetch_login :=
       Some {| login_ok := true; login_status := 200;
               login_set_cookie := Some set_cookie |};
     fs_read_ok := true;
     fs_write_ok := writable |}.

(** A state whose [.env] file holds [content]. *)
Definition with_env (content : jsstring) : renew_state :=
  {| cfg_COOKIE := u "session=new"; env_file := Some content;
     api_calls := []; console := [] |}.

(** A file system that can be read and written; no other collaborator is
    consulted by [update_env]. *)
Definition writable_world : renewal_world :=
  renewing_world (u "session=new") true.

(* ===================================================================== *)
(** ** The batch converter ([log_parser.js])

    The converter reads archived log files and writes one [/insert] line
    per recognised log line. Its module variables are [lastBaseTime] and
    [currentOffset]; [new Date(...).getTime()] is a collaborator whose
    answer ([None] for [NaN]) is an input of the model. *)
(* ===================================================================== *)

(** [`${n}`] for an integer Number below 1e21 in magnitude. *)
Definition number_to_string (n : Z) : jsstring :=
  if n <? 0 then u "-" ++ decimal (- n) else decimal n.

(** The chat pattern of the converter; its optional prefix
    [(?:[^\]]+\] )?] has no opening bracket. *)
Definition parser_chatRe : regex :=
  seqs [re_time; L "[Async Chat Thread - #"; Plus is_digit; L "/INFO]: ";
        Opt (seqs [Plus (not_char "]"); L "] "]);
        L "<"; Grp 1 (Plus (not_char ">")); L "> "; Grp 2 (Plus dot)].

(** [PATTERNS]; the last five entries are, character for character, the
    patterns and renderings of the bridge. *)
Definition PATTERNS : list rule :=
  [ {| rule_re := parser_chatRe;
       rule_fmt := fun m => u "[CHAT] <" ++ grp m 1 ++ u "> " ++ grp m 2 |};
    join_rule; leave_rule; welcome_rule; adv_rule; death_rule ].

(** [/^[\[](\d{2}:\d{2}:\d{2})[\]]/] *)
Definition timeRe : regex :=
  seqs [L "[";
        Grp 1 (seqs [Rep2 is_digit; L ":"; Rep2 is_digit; L ":"; Rep2 is_digit]);
        L "]"].

(** [s.match(re)] for a pattern that starts with [^] and has no flags: a
    match can only start at index 0. *)
Definition match_at_start (r : regex) (s : jsstring) : option match_result :=
  match rmatch r s [] (fun s' c => Some (s', c)) with
  | Some (s', c) =>
      Some {| m_before := []; m_text := firstn (length s - length s') s;
              m_after := s'; m_caps := c |}
  | None => None
  end.

Record stamper := {
  lastBaseTime : Z;
  currentOffset : Z
}.

(** The body of [generateTimestamp] from [baseTime] on. *)
Definition stamp (baseTime : option Z) (st : stamper) : Z * stamper :=
  match baseTime with
  | None => (0, st)
  | Some b =>
      if b =? lastBaseTime st then
        let off := if currentOffset st <? 900 then currentOffset st + 100
                   else currentOffset st + 1 in
        (b + off, {| lastBaseTime := lastBaseTime st; currentOffset := off |})
      else (b + 100, {| lastBaseTime := b; currentOffset := 100 |})
  end.

Record parser_world := {
  Date_getTime : jsstring -> option Z    (* [new Date(iso).getTime()] *)
}.

(** [generateTimestamp(dateStr, timeStr)] *)
Definition generateTimestamp (w : parser_world) (dateStr timeStr : jsstring)
    (st : stamper) : Z * stamper :=
  let isoString := dateStr ++ u "T" ++ timeStr ++ u "+08:00" in
  stamp (Date_getTime w isoString) st.

Record parser_state := {
  stamps : stamper;
  outputLines : list jsstring
}.

(** [handleLine(line, dateStr, outputLines)] *)
Definition handleLine (w : parser_world) (line dateStr : jsstring)
    (st : parser_state) : parser_state :=
  if negb (includes (u "/INFO]") line) then st
  else
    match match_at_start timeRe line with
    | None => st
    | Some timeMatch =>
        let timeStr := grp timeMatch 1 in
        match first_match PATTERNS line with
        | Some content =>
            let (timestamp, stamps') :=
              generateTimestamp w dateStr timeStr (stamps st) in
            {| stamps := stamps';
               outputLines :=
                 outputLines st
                 ++ [u "/insert " ++ number_to_string timestamp ++ u " " ++ content] |}
        | None => st
        end
    end.

(** The timestamps of consecutive calls of [generateTimestamp], given the
    base times the calls compute, and the module variables after them. *)
Fixpoint stamps_of (bases : list (option Z)) (st : stamper) : list Z :=
  match bases with
  | [] => []
  | b :: bases' => fst (stamp b st) :: stamps_of bases' (snd (stamp b st))
  end.

Fixpoint stamper_after (bases : list (option Z)) (st : stamper) : stamper :=
  match bases with
  | [] => st
  | b :: bases' => stamper_after bases' (snd (stamp b st))
  end.

(** The offset of the [k]-th line of one second: 100, 200, ..., 900, then
    901, 902, ... *)
Definition offset_of (k : nat) : Z :=
  if (k <=? 9)%nat then 100 * Z.of_nat k else 891 + Z.of_nat k.



(** The module variables when the converter starts. *)
Definition stamper_boot : stamper := {| lastBaseTime := 0; currentOffset := 100 |}.

(** A clock that reads every ISO string as 1 700 000 000 000. *)
Definition fixed_clock : parser_world :=
  {| Date_getTime := fun _ => Some 1700000000000 |}.

(** A line that starts with a time: [[HH:MM:SS]rest]. *)
Definition timed_line (h1 h2 m1 m2 s1 s2 : N) (rest : jsstring) : jsstring :=
  u "[" ++ [h1; h2] ++ u ":" ++ [m1; m2] ++ u ":" ++ [s1; s2] ++ u "]" ++ rest.

(** [HH:MM:SS] *)
Definition clock_text (h1 h2 m1 m2 s1 s2 : N) : jsstring :=
  [h1; h2] ++ u ":" ++ [m1; m2] ++ u ":" ++ [s1; s2].

(** What [handleLine] does with a line it recognises: stamp it and add one
    [/insert] line to the output. *)
Definition emit (w : parser_world) (dateStr timeStr content : jsstring)
    (st : parser_state) : parser_state :=
  {| stamps := snd (generateTimestamp w dateStr timeStr (stamps st));
     outputLines :=
       outputLines st
       ++ [u "/insert "
           ++ number_to_string (fst (generateTimestamp w dateStr timeStr (stamps st)))
           ++ u " " ++ content] |}.

(** The converter before its first line. *)
Definition parser_boot : parser_state :=
  {| stamps := stamper_boot; outputLines := [] |}.

(* ===================================================================== *)
(** * Properties *)
(* ===================================================================== *)

(** ** The line parser *)

(** [handleLogLine] is the first-match reading of the ordered rule list. *)
Lemma handleLogLine_parse (line : jsstring) (st : bridge) :
  handleLogLine line st =
  match parse line with
  | Some t => sendToChatroom t st
  | None => Normal st
  end.
Proof.
  unfold handleLogLine, parse.
  destruct (includes (u "/INFO]") line); simpl; [|reflexivity].
  repeat match goal with
         | |- context [js_match ?r line] => destruct (js_match r line); [reflexivity|]
         end.
  reflexivity.
Qed.

Lemma first_match_least (rs : list rule) (line : jsstring) (k : nat) (r : rule)
    (m : match_result) :
  rs !! k = Some r ->
  js_match (rule_re r) line = Some m ->
  (forall j r', (j < k)%nat -> rs !! j = Some r' ->
                js_match (rule_re r') line = None) ->
  first_match rs line = Some (rule_fmt r m).
Proof.
  revert k. induction rs as [|r0 rs IH]; intros k Hk Hm Hearlier.
  - discriminate.
  - destruct k as [|k]; simpl in *.
    + injection Hk as ->. now rewrite Hm.
    + rewrite (Hearlier 0%nat r0) by (lia || reflexivity).
      apply (IH k); [assumption..|].
      intros j r' Hj Hr'. apply (Hearlier (S j)); [lia | exact Hr'].
Qed.

(** *** Matching lemmas *)

Lemma strip_prefix_app (l s : jsstring) : strip_prefix l (l ++ s) = Some s.
Proof.
  induction l as [|a l IH]; simpl; [reflexivity|].
  now rewrite N.eqb_refl.
Qed.

Lemma strip_prefix_Some (l s s' : jsstring) :
  strip_prefix l s = Some s' -> s = l ++ s'.
Proof.
  revert s. induction l as [|a l IH]; intros s H; simpl in *.
  - now injection H as ->.
  - destruct s as [|b s]; [discriminate|].
    destruct (N.eqb_spec a b) as [->|]; [|discriminate].
    now rewrite (IH s H).
Qed.

Lemma includes_app (n a b : jsstring) : includes n (a ++ n ++ b) = true.
Proof.
  induction a as [|x a IH]; simpl.
  - destruct n; simpl; [destruct b; reflexivity|].
    rewrite N.eqb_refl, strip_prefix_app. reflexivity.
  - destruct (strip_prefix n (x :: a ++ n ++ b)); [reflexivity | exact IH].
Qed.

Lemma firstn_app_minus {A} (xs s : list A) :
  firstn (length (xs ++ s) - length s) (xs ++ s) = xs.
Proof.
  rewrite length_app.
  replace (length xs + length s - length s)%nat with (length xs) by lia.
  now rewrite firstn_app, Nat.sub_diag, firstn_all, app_nil_r.
Qed.

(** Facts about the matcher, for any type of answers of the continuation. *)
Section Matcher.

Context {R : Type}.

(** A greedy star runs over every character of the class when what
    follows lets the match go on. *)
Lemma star_k_greedy (p : N -> bool) (xs s : jsstring)
    (k : jsstring -> option R) (x : R) :
  forallb p xs = true ->
  star_k p s k = Some x ->
  star_k p (xs ++ s) k = Some x.
Proof.
  intros Hxs Hs. induction xs as [|a xs IH]; simpl in *; [assumption|].
  apply andb_true_iff in Hxs as [-> Hxs]. now rewrite (IH Hxs).
Qed.

(** An alternation of literals whose continuation gives the same answer
    after each literal that fits. *)
Lemma alts_literals (vs : list string) (s : jsstring) (c : caps)
    (k : jsstring -> caps -> option R) (x : R) :
  (exists v s', In v vs /\ strip_prefix (u v) s = Some s') ->
  (forall v s', In v vs -> strip_prefix (u v) s = Some s' -> k s' c = Some x) ->
  rmatch (alts (map (fun v => Lit (u v)) vs)) s c k = Some x.
Proof.
  induction vs as [|v vs IH]; intros (v0 & s0 & Hin & Hv0) Hk.
  - destruct Hin.
  - destruct vs as [|v' vs].
    + simpl in *. destruct Hin as [->|[]].
      rewrite Hv0. apply (Hk v0 s0); [now left | exact Hv0].
    + change (alts (map (fun v => Lit (u v)) (v :: v' :: vs)))
        with (Alt (Lit (u v)) (alts (map (fun v => Lit (u v)) (v' :: vs)))).
      cbn [rmatch].
      destruct (strip_prefix (u v) s) as [s'|] eqn:Hs.
      * now rewrite (Hk v s' (or_introl eq_refl) Hs).
      * apply IH.
        -- exists v0, s0. split; [|exact Hv0].
           destruct Hin as [->|Hin]; [congruence | exact Hin].
        -- intros w s' Hw. apply Hk. now right.
Qed.

Lemma rmatch_re_time (h1 h2 m1 m2 s1 s2 : N) (s : jsstring) (c : caps)
    (k : jsstring -> caps -> option R) :
  forallb is_digit [h1; h2; m1; m2; s1; s2] = true ->
  rmatch re_time
    (u "[" ++ [h1; h2] ++ u ":" ++ [m1; m2] ++ u ":" ++ [s1; s2] ++ u "] " ++ s) c k
  = k s c.
Proof.
  intros Hd. simpl in Hd.
  repeat (apply andb_true_iff in Hd as [? Hd]).
  unfold re_time, Rep2, L. simpl.
  repeat match goal with H : is_digit _ = true |- _ => rewrite H; clear H end.
  reflexivity.
Qed.

Lemma rmatch_lit (l s : jsstring) (c : caps) (k : jsstring -> caps -> option R) :
  rmatch (Lit l) (l ++ s) c k = k s c.
Proof. cbn [rmatch]. now rewrite strip_prefix_app. Qed.

Lemma rmatch_plus_greedy (p : N -> bool) (xs s : jsstring) (c : caps)
    (k : jsstring -> caps -> option R) (x : R) :
  xs <> [] ->
  forallb p xs = true ->
  star_k p s (fun s' => k s' c) = Some x ->
  rmatch (Plus p) (xs ++ s) c k = Some x.
Proof.
  intros Hne Hxs Hs. destruct xs as [|a xs]; [congruence|].
  simpl in Hxs. apply andb_true_iff in Hxs as [Ha Hxs].
  unfold Plus. cbn [rmatch app]. rewrite Ha.
  now apply star_k_greedy.
Qed.

Lemma star_k_stop (p : N -> bool) (a : N) (s : jsstring)
    (k : jsstring -> option R) :
  p a = false -> star_k p (a :: s) k = k (a :: s).
Proof. intros H. simpl. now rewrite H. Qed.

Lemma star_k_all (p : N -> bool) (xs : jsstring)
    (k : jsstring -> option R) (x : R) :
  forallb p xs = true -> k [] = Some x -> star_k p xs k = Some x.
Proof.
  intros Hxs Hk. rewrite <- (app_nil_r xs).
  now apply star_k_greedy.
Qed.

Lemma star_k_suffix (p : N -> bool) (s : jsstring)
    (k : jsstring -> option R) (x : R) :
  star_k p s k = Some x -> exists a s', s = a ++ s' /\ k s' = Some x.
Proof.
  induction s as [|b s IH]; cbn [star_k]; intros H.
  - now exists [], [].
  - destruct (p b).
    + destruct (star_k p s k) as [y|] eqn:Hs.
      * injection H as ->. destruct (IH eq_refl) as (a & s' & -> & Hk).
        now exists (b :: a), s'.
      * now exists [], (b :: s).
    + now exists [], (b :: s).
Qed.

Lemma rmatch_suffix (r : regex) (s : jsstring) (c : caps)
    (k : jsstring -> caps -> option R) (x : R) :
  rmatch r s c k = Some x ->
  exists a s' c', s = a ++ s' /\ k s' c' = Some x.
Proof.
  revert s c k. induction r as [l|p|p|r1 IH1 r2 IH2|r1 IH1 r2 IH2|r1 IH1|i r1 IH1];
    intros s c k; cbn [rmatch]; intros H.
  - destruct (strip_prefix l s) as [s'|] eqn:Hs; [|discriminate].
    apply strip_prefix_Some in Hs. now exists l, s', c.
  - destruct s as [|b s]; [discriminate|].
    destruct (p b); [|discriminate]. now exists [b], s, c.
  - apply star_k_suffix in H as (a & s' & -> & Hk). now exists a, s', c.
  - apply IH1 in H as (a & s1 & c1 & -> & H).
    apply IH2 in H as (a' & s2 & c2 & -> & H).
    exists (a ++ a'), s2, c2. now rewrite <- app_assoc.
  - destruct (rmatch r1 s c k) as [y|] eqn:H1.
    + injection H as ->. now apply IH1 in H1.
    + now apply IH2 in H.
  - destruct (rmatch r1 s c k) as [y|] eqn:H1.
    + injection H as ->. now apply IH1 in H1.
    + now exists [], s, c.
  - apply IH1 in H as (a & s' & c' & -> & H). eauto.
Qed.

Lemma rmatch_seq_lit_contains (r0 r2 : regex) (l s : jsstring) (c : caps)
    (k : jsstring -> caps -> option R) (x : R) :
  rmatch (Seq r0 (Seq (Lit l) r2)) s c k = Some x ->
  exists a b, s = a ++ l ++ b.
Proof.
  cbn [rmatch]. intros H.
  apply rmatch_suffix in H as (a & s' & c' & -> & H).
  destruct (strip_prefix l s') as [b|] eqn:Hl; [|discriminate].
  apply strip_prefix_Some in Hl. subst s'. now exists a, b.
Qed.

Lemma server_pattern_has_marker (r2 : regex) (s : jsstring) (c : caps)
    (k : jsstring -> caps -> option R) (x : R) :
  rmatch (Seq re_time (Seq re_server r2)) s c k = Some x ->
  includes (u "/INFO]") s = true.
Proof.
  intros H. apply rmatch_seq_lit_contains in H as (a & b & ->).
  change (u "[Server thread/INFO]: " ) with (u "[Server thread" ++ u "/INFO]" ++ u ": ").
  rewrite <- !app_assoc, (app_assoc a). apply includes_app.
Qed.

Lemma chat_pattern_has_marker (s : jsstring) (c : caps)
    (k : jsstring -> caps -> option R) (x : R) :
  rmatch chatRe s c k = Some x -> includes (u "/INFO]") s = true.
Proof.
  unfold chatRe. cbn [seqs]. intros H.
  change (rmatch re_time s c
            (fun s1 c1 =>
               rmatch (L "[Async Chat Thread - #") s1 c1
                 (fun s2 c2 =>
                    rmatch (Seq (Plus is_digit)
                              (Seq (L "/INFO]: ")
                                 (seqs [Opt (seqs [L "["; Plus (not_char "]"); L "] "]);
                                        L "<"; Grp 1 (Plus (not_char ">"));
                                        L "> "; Grp 2 (Plus dot)])))
                      s2 c2 k)) = Some x) in H.
  apply rmatch_suffix in H as (a1 & s1 & c1 & -> & H).
  apply rmatch_suffix in H as (a2 & s2 & c2 & -> & H).
  apply rmatch_seq_lit_contains in H as (a3 & b & ->).
  change (u "/INFO]: ") with (u "/INFO]" ++ u ": ").
  rewrite <- !app_assoc, !(app_assoc a1), (app_assoc (a1 ++ a2)).
  apply includes_app.
Qed.

End Matcher.

(** *** Whole matches *)

Lemma exec_from_here (r : regex) (pre s s' : jsstring) (c : caps) :
  rmatch r s [] (fun s' c => Some (s', c)) = Some (s', c) ->
  exec_from r pre s =
  Some {| m_before := rev pre; m_text := firstn (length s - length s') s;
          m_after := s'; m_caps := c |}.
Proof. intros H. destruct s; simpl; now rewrite H. Qed.

Lemma death_match (h1 h2 m1 m2 s1 s2 : N) (name rest tail : jsstring)
    (verb : string) :
  forallb is_digit [h1; h2; m1; m2; s1; s2] = true ->
  name <> [] ->
  forallb is_word name = true ->
  In verb death_verbs ->
  rest = u verb ++ tail ->
  forallb dot rest = true ->
  exists m,
    js_match deathRe (server_line h1 h2 m1 m2 s1 s2 (name ++ u " " ++ rest)) = Some m
    /\ grp m 1 = name /\ grp m 2 = rest.
Proof.
  intros Hd Hne Hname Hverb Hrest Hdot.
  eexists. split.
  - unfold js_match. apply exec_from_here.
    unfold server_line, deathRe. cbn [seqs].
    seq_step. rewrite (rmatch_re_time _ _ _ _ _ _ _ _ _ Hd).
    seq_step. unfold re_server, L. rewrite rmatch_lit.
    seq_step. grp_step.
    apply rmatch_plus_greedy; [assumption..|].
    change (u " " ++ rest) with (32%N :: rest).
    rewrite star_k_stop by reflexivity.
    change (32%N :: rest) with (u " " ++ rest).
    rewrite firstn_app_minus.
    seq_step. rewrite rmatch_lit.
    grp_step. seq_step.
    apply alts_literals.
    + exists verb, tail. split; [assumption|].
      rewrite Hrest. apply strip_prefix_app.
    + intros v s' _ Hv. apply strip_prefix_Some in Hv.
      cbn [rmatch]. apply star_k_all.
      * rewrite Hv, forallb_app in Hdot.
        now apply andb_true_iff in Hdot as [_ ?].
      * reflexivity.
  - split.
    + reflexivity.
    + cbn. now rewrite Nat.sub_0_r, firstn_all.
Qed.

(** A match of any of the six patterns contains the text [/INFO]], so the
    test at the head of [handleLogLine] never hides a match. *)
Lemma exec_from_suffix (r : regex) (pre s : jsstring) (m : match_result) :
  exec_from r pre s = Some m ->
  exists a s0 y,
    s = a ++ s0 /\ rmatch r s0 [] (fun s' c => Some (s', c)) = Some y.
Proof.
  revert pre. induction s as [|b s IH]; intros pre; cbn [exec_from].
  - destruct (rmatch r [] [] _) as [y|] eqn:Hr; [|discriminate].
    intros _. now exists [], [], y.
  - destruct (rmatch r (b :: s) [] _) as [y|] eqn:Hr.
    + intros _. now exists [], (b :: s), y.
    + intros H. apply IH in H as (a & s0 & y & -> & H).
      now exists (b :: a), s0, y.
Qed.

Lemma rule_match_has_marker (r : rule) (line : jsstring) (m : match_result) :
  In r rules ->
  js_match (rule_re r) line = Some m ->
  includes (u "/INFO]") line = true.
Proof.
  intros Hr Hm. unfold js_match in Hm.
  apply exec_from_suffix in Hm as (a & s0 & y & -> & Hm).
  assert (H0 : includes (u "/INFO]") s0 = true).
  { cbn in Hr.
    destruct Hr as [<-|[<-|[<-|[<-|[<-|[<-|[]]]]]]]; cbn [rule_re] in Hm.
    - now apply chat_pattern_has_marker in Hm.
    - now apply server_pattern_has_marker in Hm.
    - now apply server_pattern_has_marker in Hm.
    - now apply server_pattern_has_marker in Hm.
    - now apply server_pattern_has_marker in Hm.
    - now apply server_pattern_has_marker in Hm. }
  clear Hm. induction a as [|b a IH]; [exact H0|].
  cbn [app includes]. destruct (strip_prefix _ _); [reflexivity | exact IH].
Qed.

(** C3. On every line, the rule that decides what [handleLogLine] relays is
    the earliest one, in the order chat, join, leave, welcome, advancement,
    death, whose pattern matches: if the rule at position [k] matches and no
    rule before it does, the text relayed is the rendering of rule [k],
    whatever later rules match. *)
Theorem first_rule_wins (line : jsstring) (k : nat) (r : rule)
    (m : match_result) (st : bridge) :
  rules !! k = Some r ->
  js_match (rule_re r) line = Some m ->
  (forall j r', (j < k)%nat -> rules !! j = Some r' ->
                js_match (rule_re r') line = None) ->
  handleLogLine line st = sendToChatroom (rule_fmt r m) st.
Proof.
  intros Hk Hm Hearlier.
  rewrite handleLogLine_parse. unfold parse.
  rewrite (rule_match_has_marker r line m);
    [|now apply list_elem_of_In, list_elem_of_lookup_2 with k|exact Hm].
  now rewrite (first_match_least rules line k r m Hk Hm Hearlier).
Qed.

Lemma left_today_matches_both :
  (fun m => grp m 1) <$> js_match leaveRe left_today = Some (u "Steve") /\
  rule_fmt death_rule <$> js_match deathRe left_today
    = Some (u "[INFO] Steve left the game today").
Proof. split; vm_compute; reflexivity. Qed.

Lemma first_rule_wins_witness :
  handleLogLine left_today (started [] [])
  = sendToChatroom (u "[INFO] Steve left the game") (started [] []).
Proof.
  set (st := started [] []).
  destruct (js_match leaveRe left_today) as [m|] eqn:Hm; [|discriminate Hm].
  assert (Hfmt : rule_fmt leave_rule m = u "[INFO] Steve left the game").
  { revert Hm. vm_compute. intros [= <-]. reflexivity. }
  rewrite <- Hfmt.
  apply (first_rule_wins left_today 2 leave_rule m st).
  - reflexivity.
  - exact Hm.
  - intros j r' Hj Hr'.
    destruct j as [|[|j]]; [| |lia]; injection Hr' as <-; vm_compute; reflexivity.
Defined.

Lemma server_line_includes_marker (h1 h2 m1 m2 s1 s2 : N) (payload : jsstring) :
  includes (u "/INFO]") (server_line h1 h2 m1 m2 s1 s2 payload) = true.
Proof.
  change (server_line h1 h2 m1 m2 s1 s2 payload)
    with ((u "[" ++ [h1; h2] ++ u ":" ++ [m1; m2] ++ u ":" ++ [s1; s2] ++ u "] "
           ++ u "[Server thread") ++ u "/INFO]" ++ (u ": " ++ payload)).
  apply includes_app.
Qed.

(** C10. The death rule tests its verbs as a character prefix of what
    follows the name. On a line [[HH:MM:SS] [Server thread/INFO]: name rest]
    (one line: [rest] holds no line terminator) where [name] is a word, [rest]
    starts with one of the listed verbs as a string of characters, whatever
    comes after, and none of the five earlier rules matches, [handleLogLine]
    relays [[INFO] name rest]. *)
Theorem death_rule_is_a_prefix_test (h1 h2 m1 m2 s1 s2 : N)
    (name rest tail : jsstring) (verb : string) (st : bridge) :
  forallb is_digit [h1; h2; m1; m2; s1; s2] = true ->
  name <> [] ->
  forallb is_word name = true ->
  In verb death_verbs ->
  rest = u verb ++ tail ->
  forallb dot rest = true ->
  (forall r, In r [chat_rule; join_rule; leave_rule; welcome_rule; adv_rule] ->
             js_match (rule_re r)
               (server_line h1 h2 m1 m2 s1 s2 (name ++ u " " ++ rest)) = None) ->
  handleLogLine (server_line h1 h2 m1 m2 s1 s2 (name ++ u " " ++ rest)) st
  = sendToChatroom (u "[INFO] " ++ name ++ u " " ++ rest) st.
Proof.
  intros Hd Hne Hname Hverb Hrest Hdot Hearlier.
  destruct (death_match h1 h2 m1 m2 s1 s2 name rest tail verb
              Hd Hne Hname Hverb Hrest Hdot) as (m & Hm & Hg1 & Hg2).
  rewrite handleLogLine_parse. unfold parse.
  rewrite server_line_includes_marker.
  rewrite (first_match_least rules _ 5 death_rule m eq_refl Hm).
  - unfold death_rule, rule_fmt. now rewrite Hg1, Hg2.
  - intros j r' Hj Hr'. apply Hearlier.
    do 5 (destruct j as [|j]; [injection Hr' as <-; simpl; tauto|]).
    lia.
Qed.

Lemma death_rule_is_a_prefix_test_witness :
  handleLogLine (u "[12:00:00] [Server thread/INFO]: Alice washed her hands")
    (started [] [])
  = sendToChatroom (u "[INFO] Alice washed her hands") (started [] []).
Proof.
  apply (death_rule_is_a_prefix_test 49 50 48 48 48 48 (u "Alice")
           (u "washed her hands") (u "hed her hands") "was" (started [] [])).
  - reflexivity.
  - discriminate.
  - reflexivity.
  - simpl; tauto.
  - reflexivity.
  - reflexivity.
  - intros r Hr. simpl in Hr.
    repeat (destruct Hr as [<-|Hr]; [vm_compute; reflexivity|]).
    destruct Hr.
Defined.

(** ** The outbound queue *)

Lemma ws_send_open (data : jsstring) (st : bridge) (i : nat) :
  ws st = Some i ->
  socket_state i st = Some OPEN ->
  ws_send data st =
  match send_script st with
  | false :: sc => Throw (set_wire (wire st) sc st)
  | sc => Normal (set_wire (wire st ++ [(i, data)]) (tl sc) st)
  end.
Proof.
  unfold ws_send, socket_state. intros -> Hopen. now rewrite Hopen.
Qed.

Lemma is_open_spec (st : bridge) :
  is_open st = true <-> exists i, ws st = Some i /\ socket_state i st = Some OPEN.
Proof.
  unfold is_open, ws_readyState, socket_state. split.
  - destruct (ws st) as [i|]; [|discriminate].
    destruct (sock_state <$> sockets st !! i) as [[]|] eqn:E; try discriminate.
    intros _. now exists i.
  - intros (i & -> & ->). reflexivity.
Qed.

(** What the loop of a flush does, send by send. *)
Lemma flush_loop_spec (q : list msg) (st : bridge) (i : nat) :
  ws st = Some i ->
  socket_state i st = Some OPEN ->
  msgQueue st = q ->
  match flush_loop q st with
  | Normal st' =>
      st' = set_wire (wire st ++ frames i (clock st) q)
              (skipn (length q) (send_script st)) (set_msgQueue [] st)
  | Throw st' =>
      exists sent failed rest,
        q = sent ++ failed :: rest /\
        send_script st !! length sent = Some false /\
        st' = set_wire (wire st ++ frames i (clock st) sent)
                (skipn (S (length sent)) (send_script st)) (set_msgQueue rest st)
  end.
Proof.
  revert st. induction q as [|m q IH]; intros st Hws Hopen Hq.
  - destruct st; simpl in *. subst. now rewrite app_nil_r.
  - cbn [flush_loop].
    rewrite (ws_send_open _ (set_msgQueue q st) i) by assumption.
    cbn [send_script set_msgQueue].
    destruct (send_script st) as [|[] sc] eqn:Hsc.
    + specialize (IH (set_wire (wire st ++ [(i, finalText (clock st) m)]) []
                        (set_msgQueue q st)) Hws Hopen eq_refl).
      cbn [clock wire set_msgQueue set_wire tl] in *.
      destruct (flush_loop q _) as [st'|st'].
      * rewrite IH. destruct st; cbn in *. subst.
        rewrite <- app_assoc, ?drop_nil. reflexivity.
      * destruct IH as (sent & failed & rest & _ & Hf & _).
        first [discriminate Hf | destruct (length sent); discriminate Hf].
    + specialize (IH (set_wire (wire st ++ [(i, finalText (clock st) m)]) sc
                        (set_msgQueue q st)) Hws Hopen eq_refl).
      cbn [clock wire set_msgQueue set_wire tl] in *.
      destruct (flush_loop q _) as [st'|st'].
      * rewrite IH. destruct st; cbn in *. subst.
        rewrite <- app_assoc. reflexivity.
      * destruct IH as (sent & failed & rest & -> & Hf & ->).
        exists (m :: sent), failed, rest. split; [reflexivity|].
        split; [exact Hf|].
        destruct st; cbn in *. subst. rewrite <- app_assoc. reflexivity.
    + exists [], m, q. split; [reflexivity|]. split; [reflexivity|].
      destruct st; cbn in *. subst. now rewrite app_nil_r.
Qed.

Lemma resetIdleTimer_queue (st : bridge) :
  msgQueue (resetIdleTimer st) = msgQueue st
  /\ wire (resetIdleTimer st) = wire st
  /\ send_script (resetIdleTimer st) = send_script st
  /\ ws (resetIdleTimer st) = ws st
  /\ sockets (resetIdleTimer st) = sockets st
  /\ clock (resetIdleTimer st) = clock st.
Proof. unfold resetIdleTimer. destruct (idleTimer st); repeat split. Qed.



(** *** Order of delivery *)






Lemma connect_fields (st : bridge) :
  msgQueue (connect st) = msgQueue st
  /\ wire (connect st) = wire st
  /\ send_script (connect st) = send_script st
  /\ timers (connect st) = timers st
  /\ next_timer (connect st) = next_timer st
  /\ idleTimer (connect st) = idleTimer st
  /\ clock (connect st) = clock st.
Proof. unfold connect. destruct (ws_readyState st) as [[]|]; repeat split. Qed.

Lemma connect_ws_latest (st : bridge) : ws_latest st -> ws_latest (connect st).
Proof.
  unfold connect, ws_latest.
  destruct (ws_readyState st) as [[]|]; try easy;
    intros _; cbn; rewrite length_app; cbn; lia.
Qed.










(** A, B and C, enqueued while disconnected, go out in that order when the
    next socket opens. *)
Example abc_in_order :
  wire (state_of (run abc_run (started [] [])))
  = [(1%nat, u "[CHAT] <Steve> A"); (1%nat, u "[CHAT] <Steve> B");
     (1%nat, u "[CHAT] <Steve> C")].
Proof. vm_compute. reflexivity. Qed.

(** *** The delay note *)

Lemma flush_sends_finalText (st : bridge) :
  exists i sent rest,
    msgQueue st = sent ++ rest /\
    wire (state_of (flushMsgQueue st)) = wire st ++ frames i (clock st) sent.
Proof.
  unfold flushMsgQueue.
  destruct (is_open st) eqn:Hopen; cbn [negb].
  - apply is_open_spec in Hopen as (i & Hws & Hi).
    pose proof (flush_loop_spec (msgQueue st) st i Hws Hi eq_refl) as H.
    destruct (flush_loop (msgQueue st) st) as [st'|st']; cbn [state_of].
    + exists i, (msgQueue st), []. rewrite app_nil_r. split; [reflexivity|].
      destruct (resetIdleTimer_queue st') as (_ & -> & _). now subst st'.
    + destruct H as (sent & failed & rest & Hq & _ & ->).
      now exists i, sent, (failed :: rest).
  - exists 0%nat, [], (msgQueue st). cbn. now rewrite app_nil_r.
Qed.

Lemma app_neq_self {A} (l s : list A) : s <> [] -> l ++ s <> l.
Proof.
  intros Hs Heq. apply (f_equal (@length A)) in Heq.
  rewrite length_app in Heq. destruct s; [congruence | cbn in Heq; lia].
Qed.

(** C6. Every frame a flush sends is the text of its message as
    [finalText] renders it at the time of the flush, and that rendering
    differs from the queued text exactly when more than 5000 ms passed
    since the message was queued; the text then ends in [ (delayed Ns)],
    [N] being the whole number of seconds nearest to the latency (the larger
    one on a tie). Queued at 0 and flushed at 6000 ms a text gets
    [ (delayed 6s)]; flushed at 4000 ms it is sent as it is. *)
Theorem delay_note (st : bridge) (now : Z) (m : msg) :
  (exists i sent rest,
     msgQueue st = sent ++ rest /\
     wire (state_of (flushMsgQueue st)) = wire st ++ frames i (clock st) sent)
  /\ (finalText now m <> text m <-> 5000 < now - time m)
  /\ (5000 < now - time m ->
      exists n, finalText now m = text m ++ u " (delayed " ++ decimal n ++ u "s)"
                /\ 1000 * n - 500 <= now - time m < 1000 * n + 500)
  /\ finalText 6000 {| text := text m; time := 0 |} = text m ++ u " (delayed 6s)"
  /\ finalText 4000 {| text := text m; time := 0 |} = text m.
Proof.
  split; [apply flush_sends_finalText|].
  unfold finalText, toFixed0_of_ms.
  destruct (Z.ltb_spec 5000 (now - time m)) as [Hlt|Hge].
  - split; [|split; [|split; reflexivity]].
    + split; [intros _; exact Hlt | intros _].
      apply app_neq_self. discriminate.
    + intros _. exists ((now - time m + 500) / 1000). split; [reflexivity|].
      pose proof (Z.div_mod (now - time m + 500) 1000 ltac:(lia)).
      pose proof (Z.mod_pos_bound (now - time m + 500) 1000 ltac:(lia)). lia.
  - split; [|split; [|split; reflexivity]].
    + split; [congruence | lia].
    + lia.
Qed.

Lemma delay_note_witness :
  exists n,
    finalText 6400 {| text := u "hi"; time := 0 |}
    = u "hi" ++ u " (delayed " ++ decimal n ++ u "s)"
    /\ 1000 * n - 500 <= 6400 - 0 < 1000 * n + 500.
Proof.
  apply (delay_note (started [] []) 6400 {| text := u "hi"; time := 0 |}).
  simpl. lia.
Defined.

(** ** Timers *)

Lemma timers_ok_ext (st st' : bridge) :
  timers st' = timers st -> next_timer st' = next_timer st ->
  idleTimer st' = idleTimer st -> timers_ok st -> timers_ok st'.
Proof. unfold timers_ok. now intros -> -> ->. Qed.

Lemma ws_send_timers (data : jsstring) (st : bridge) :
  let st' := state_of (ws_send data st) in
  timers st' = timers st /\ next_timer st' = next_timer st
  /\ idleTimer st' = idleTimer st /\ sockets st' = sockets st /\ ws st' = ws st
  /\ clock st' = clock st.
Proof.
  unfold ws_send.
  destruct (ws st) as [i|] eqn:Hws; [|cbn; now rewrite Hws].
  destruct (sock_state <$> sockets st !! i) as [[]|]; cbn;
    try (now rewrite Hws).
  destruct (send_script st) as [|[] sc]; cbn; now rewrite Hws.
Qed.

Lemma flush_loop_timers (q : list msg) (st : bridge) :
  let st' := state_of (flush_loop q st) in
  timers st' = timers st /\ next_timer st' = next_timer st
  /\ idleTimer st' = idleTimer st /\ sockets st' = sockets st /\ ws st' = ws st
  /\ clock st' = clock st.
Proof.
  revert st. induction q as [|m q IH]; intros st; [now cbn|].
  cbn [flush_loop].
  pose proof (ws_send_timers (finalText (clock (set_msgQueue q st)) m)
                (set_msgQueue q st)) as Hsend.
  destruct (ws_send _ (set_msgQueue q st)) as [st1|st1]; cbn in Hsend.
  - specialize (IH st1). cbn in IH |- *.
    destruct IH as (-> & -> & -> & -> & -> & ->). exact Hsend.
  - exact Hsend.
Qed.

Lemma one_idle_timer (l : list timer) (id : nat) :
  NoDup (map tid l) ->
  Forall (fun t => cb t = IdleCheck -> Some id = Some (tid t)) l ->
  (length (List.filter is_idle l) <= 1)%nat.
Proof.
  induction l as [|t l IH]; intros Hnd Hid; [cbn; lia|].
  cbn in Hnd. apply NoDup_cons in Hnd as [Hnotin Hnd].
  apply Forall_cons in Hid as [Ht Hid].
  cbn [List.filter]. unfold is_idle at 1.
  destruct (cb t) eqn:Hcb; [|now apply IH].
  assert (Hnone : List.filter is_idle l = []).
  { destruct (List.filter is_idle l) as [|t' l'] eqn:Hf; [reflexivity|].
    exfalso. assert (Hin : In t' (List.filter is_idle l)) by (rewrite Hf; now left).
    apply filter_In in Hin as [Hin Hidle].
    rewrite Forall_forall in Hid.
    apply list_elem_of_In in Hin.
    assert (Hc : cb t' = IdleCheck)
      by (unfold is_idle in Hidle; destruct (cb t'); [reflexivity | discriminate]).
    specialize (Hid t' Hin Hc). specialize (Ht eq_refl).
    apply Hnotin. apply list_elem_of_In, in_map_iff. exists t'.
    split; [congruence | now apply list_elem_of_In]. }
  rewrite Hnone. cbn. lia.
Qed.

Lemma timers_ok_one_idle (st : bridge) :
  timers_ok st -> (length (List.filter is_idle (timers st)) <= 1)%nat.
Proof.
  intros (Hnd & _ & Hid).
  destruct (idleTimer st) as [id|] eqn:Hidle.
  - now apply (one_idle_timer _ id).
  - apply (one_idle_timer _ 0%nat); [exact Hnd|].
    eapply Forall_impl; [exact Hid|]. cbn. intros t Ht Hc. now specialize (Ht Hc).
Qed.

Lemma setTimeout_reconnect_ok (delay : Z) (st : bridge) :
  timers_ok st -> timers_ok (snd (setTimeout ReconnectCheck delay st)).
Proof.
  intros (Hnd & Hlt & Hid). unfold timers_ok, setTimeout. cbn.
  rewrite map_app. cbn. split; [|split].
  - apply NoDup_app. split; [exact Hnd|]. split; [|apply NoDup_singleton].
    intros x Hx Hx'. apply list_elem_of_singleton in Hx'. subst x.
    apply list_elem_of_fmap in Hx as (t & Ht & Hin).
    rewrite Forall_forall in Hlt. specialize (Hlt t Hin). lia.
  - apply Forall_app. split.
    + eapply Forall_impl; [exact Hlt|]. cbn. lia.
    + constructor; [cbn; lia | constructor].
  - apply Forall_app. split; [exact Hid|].
    constructor; [discriminate | constructor].
Qed.

Lemma clearTimeout_ok (id : nat) (st : bridge) :
  timers_ok st -> timers_ok (clearTimeout id st).
Proof.
  intros (Hnd & Hlt & Hid). unfold timers_ok, clearTimeout. cbn.
  assert (Hsub : forall t, t ∈ List.filter (fun t => negb (tid t =? id)%nat) (timers st)
                           -> t ∈ timers st).
  { intros t Ht. apply list_elem_of_In in Ht. apply filter_In in Ht as [Ht _].
    now apply list_elem_of_In. }
  split; [|split].
  - clear Hlt Hid Hsub. induction (timers st) as [|t l IH]; [constructor|].
    cbn in Hnd. apply NoDup_cons in Hnd as [Hnotin Hnd].
    cbn. destruct (negb (tid t =? id)%nat); [|now apply IH].
    cbn. apply NoDup_cons. split; [|now apply IH].
    intros Hin. apply Hnotin.
    apply list_elem_of_fmap in Hin as (t' & -> & Hin).
    apply list_elem_of_fmap. exists t'. split; [reflexivity|].
    apply list_elem_of_In in Hin. apply filter_In in Hin as [Hin _].
    now apply list_elem_of_In.
  - rewrite Forall_forall in *. auto.
  - rewrite Forall_forall in *. auto.
Qed.

(** Once the timer [idleTimer] refers to is cleared, no idle check is
    pending. *)
Lemma cleared_no_idle (st : bridge) :
  timers_ok st ->
  List.filter is_idle
    (timers match idleTimer st with
            | Some id => clearTimeout id st
            | None => st
            end) = [].
Proof.
  intros (_ & _ & Hid).
  assert (H : forall l,
             Forall (fun t => is_idle t = false) l -> List.filter is_idle l = []).
  { induction l as [|t l IH]; intros Hl; [reflexivity|].
    apply Forall_cons in Hl as [Ht Hl]. cbn. rewrite Ht. now apply IH. }
  apply H. rewrite Forall_forall in *. intros t Ht.
  destruct (is_idle t) eqn:Hidle; [exfalso | reflexivity].
  assert (Hc : cb t = IdleCheck)
    by (unfold is_idle in Hidle; destruct (cb t); [reflexivity | discriminate]).
  destruct (idleTimer st) as [id|] eqn:Hi.
  - cbn in Ht. apply list_elem_of_In, filter_In in Ht as [Hin Hne].
    apply list_elem_of_In in Hin. specialize (Hid t Hin Hc).
    injection Hid as ->. now rewrite Nat.eqb_refl in Hne.
  - now specialize (Hid t Ht Hc).
Qed.

Lemma resetIdleTimer_timers (st : bridge) :
  timers_ok st ->
  timers_ok (resetIdleTimer st)
  /\ List.filter is_idle (timers (resetIdleTimer st))
     = [{| tid := next_timer st; due := clock st + 600000; cb := IdleCheck |}].
Proof.
  intros Hok. pose proof (cleared_no_idle st Hok) as Hnone.
  assert (Hok1 : timers_ok match idleTimer st with
                           | Some id => clearTimeout id st
                           | None => st
                           end)
    by (destruct (idleTimer st); [now apply clearTimeout_ok | exact Hok]).
  unfold resetIdleTimer.
  set (st1 := match idleTimer st with
              | Some id => clearTimeout id st
              | None => st
              end) in *.
  assert (Hn : next_timer st1 = next_timer st /\ clock st1 = clock st)
    by (subst st1; destruct (idleTimer st); now split).
  destruct Hn as [Hn Hc].
  destruct Hok1 as (Hnd & Hlt & Hid).
  cbn. rewrite Hn, Hc. split.
  - unfold timers_ok. cbn. rewrite map_app. cbn. split; [|split].
    + apply NoDup_app. split; [exact Hnd|]. split; [|apply NoDup_singleton].
      intros x Hx Hx'. apply list_elem_of_singleton in Hx'. subst x.
      apply list_elem_of_fmap in Hx as (t & Ht & Hin).
      rewrite Forall_forall in Hlt. specialize (Hlt t Hin). lia.
    + apply Forall_app. split.
      * eapply Forall_impl; [exact Hlt|]. cbn. lia.
      * constructor; [cbn; lia | constructor].
    + apply Forall_app. split.
      * rewrite Forall_forall. intros t Ht Hcb. exfalso.
        assert (Hin : In t (List.filter is_idle (timers st1))).
        { apply filter_In. split; [now apply list_elem_of_In|].
          unfold is_idle. now rewrite Hcb. }
        now rewrite Hnone in Hin.
      * constructor; [reflexivity | constructor].
  - rewrite List.filter_app, Hnone. reflexivity.
Qed.

Lemma flushMsgQueue_timers_ok (st : bridge) :
  timers_ok st -> timers_ok (state_of (flushMsgQueue st)).
Proof.
  intros Hok. unfold flushMsgQueue.
  destruct (is_open st); cbn [negb]; [|exact Hok].
  pose proof (flush_loop_timers (msgQueue st) st) as (Ht & Hn & Hi & _).
  destruct (flush_loop (msgQueue st) st) as [st'|st']; cbn [state_of] in *.
  - apply resetIdleTimer_timers. now apply (timers_ok_ext st).
  - now apply (timers_ok_ext st).
Qed.

Lemma connect_timers_ok (st : bridge) : timers_ok st -> timers_ok (connect st).
Proof.
  destruct (connect_fields st) as (_ & _ & _ & Ht & Hn & Hi & _).
  now apply timers_ok_ext.
Qed.

Lemma ws_close_timers_ok (st : bridge) :
  timers_ok st -> timers_ok (state_of (ws_close st)).
Proof. unfold ws_close. now destruct (ws st). Qed.

Lemma sendToChatroom_timers_ok (t : jsstring) (st : bridge) :
  timers_ok st -> timers_ok (state_of (sendToChatroom t st)).
Proof.
  intros Hok. unfold sendToChatroom.
  destruct (is_open _).
  - now apply flushMsgQueue_timers_ok.
  - now apply connect_timers_ok.
Qed.

Lemma step_timers_ok (e : event) (st : bridge) :
  timers_ok st -> timers_ok (state_of (step e st)).
Proof.
  intros Hok. destruct e as [dt|l|i|i|i|id]; cbn [step].
  - now destruct (0 <=? dt).
  - rewrite handleLogLine_parse.
    destruct (parse l); [now apply sendToChatroom_timers_ok | exact Hok].
  - destruct (socket_state i st) as [[]|]; try exact Hok.
    now apply flushMsgQueue_timers_ok.
  - destruct (socket_state i st) as [[]|]; try exact Hok;
      now apply (setTimeout_reconnect_ok 5000 (set_socket_state i CLOSED st)).
  - destruct (socket_state i st) as [[]|]; try exact Hok;
      now apply (ws_close_timers_ok (set_socket_state i CLOSING st)).
  - destruct (find_timer id st) as [t|]; [|exact Hok].
    destruct (due t <=? clock st); [|exact Hok].
    pose proof (clearTimeout_ok id st Hok) as Hok1.
    destruct (cb t); cbn [run_callback].
    + destruct (is_open _); [now apply ws_close_timers_ok | exact Hok1].
    + destruct (msgQueue _); [exact Hok1 | now apply connect_timers_ok].
Qed.

Lemma run_timers_ok (evs : list event) (st : bridge) :
  timers_ok st -> timers_ok (state_of (run evs st)).
Proof.
  revert st. induction evs as [|e evs IH]; intros st Hok; [exact Hok|].
  cbn [run]. pose proof (step_timers_ok e st Hok) as Hstep.
  destruct (step e st) as [st'|st']; [now apply IH | exact Hstep].
Qed.

Lemma started_timers_ok (cookie : jsstring) (script : list bool) :
  timers_ok (started cookie script).
Proof. repeat split; constructor. Qed.

Lemma find_timer_Some (id : nat) (st : bridge) (t : timer) :
  find_timer id st = Some t -> t ∈ timers st /\ tid t = id.
Proof.
  unfold find_timer. intros H. apply find_some in H as [Hin Hid].
  split; [now apply list_elem_of_In | now apply Nat.eqb_eq].
Qed.

Lemma flush_rearms (st st' : bridge) :
  timers_ok st -> is_open st = true -> flushMsgQueue st = Normal st' ->
  List.filter is_idle (timers st')
  = [{| tid := next_timer st; due := clock st + 600000; cb := IdleCheck |}].
Proof.
  intros Hok Hopen. unfold flushMsgQueue. rewrite Hopen. cbn [negb].
  pose proof (flush_loop_timers (msgQueue st) st) as (Ht & Hn & Hi & _ & _ & Hc).
  destruct (flush_loop (msgQueue st) st) as [st1|st1]; [|discriminate].
  cbn [state_of] in *. intros [= <-].
  rewrite <- Hn, <- Hc. apply resetIdleTimer_timers. now apply (timers_ok_ext st).
Qed.

(** C9, as the code has it. In every state the process can reach, at most
    one idle check is pending. A flush on an open socket that returns, also
    of an empty queue, leaves exactly one, due 600000 ms later, and so does
    an enqueue while the socket is open; an enqueue while it is not open
    leaves the pending timers as they are. When a pending idle check comes
    due it is removed, so that none is pending, and if the socket is open
    its [close()] is called once, which starts its closing; if not, no
    socket is touched. *)
Theorem idle_timer_discipline (cookie : jsstring) (script : list bool)
    (evs : list event) :
  let st := state_of (run evs (started cookie script)) in
  (length (List.filter is_idle (timers st)) <= 1)%nat
  /\ (forall st', is_open st = true -> flushMsgQueue st = Normal st' ->
        List.filter is_idle (timers st')
        = [{| tid := next_timer st; due := clock st + 600000; cb := IdleCheck |}])
  /\ (forall t st', is_open st = true -> sendToChatroom t st = Normal st' ->
        List.filter is_idle (timers st')
        = [{| tid := next_timer st; due := clock st + 600000; cb := IdleCheck |}])
  /\ (forall t, is_open st = false ->
        timers (state_of (sendToChatroom t st)) = timers st)
  /\ (forall id t, find_timer id st = Some t -> cb t = IdleCheck ->
        due t <= clock st ->
        exists st',
          step (Fire id) st = Normal st'
          /\ List.filter is_idle (timers st') = []
          /\ if is_open st
             then exists i k,
                 ws st = Some i /\ sockets st !! i = Some k
                 /\ sock_state k = OPEN
                 /\ sockets st' !! i
                    = Some {| sock_state := CLOSING; sock_cookie := sock_cookie k;
                              sock_closes := S (sock_closes k) |}
                 /\ forall j, j <> i -> sockets st' !! j = sockets st !! j
             else sockets st' = sockets st).
Proof.
  intros st.
  assert (Hok : timers_ok st) by apply run_timers_ok, started_timers_ok.
  clearbody st. split; [now apply timers_ok_one_idle|].
  split; [intros st'; now apply flush_rearms|].
  split; [|split].
  - intros t st' Hopen. unfold sendToChatroom.
    set (st1 := set_msgQueue _ st).
    change (is_open st1) with (is_open st). rewrite Hopen.
    now apply (flush_rearms st1).
  - intros t Hclosed. unfold sendToChatroom.
    set (st1 := set_msgQueue _ st).
    change (is_open st1) with (is_open st). rewrite Hclosed. cbn [state_of].
    now destruct (connect_fields st1) as (_ & _ & _ & -> & _).
  - intros id t Hfind Hcb Hdue.
    cbn [step]. rewrite Hfind.
    destruct (Z.leb_spec (due t) (clock st)) as [_|]; [|lia].
    rewrite Hcb. cbn [run_callback].
    apply find_timer_Some in Hfind as [Hin Hid].
    assert (Hidle : idleTimer st = Some id).
    { destruct Hok as (_ & _ & Hlink). rewrite Forall_forall in Hlink.
      rewrite <- Hid. now apply Hlink. }
    pose proof (cleared_no_idle st Hok) as Hnone. rewrite Hidle in Hnone.
    change (is_open (clearTimeout id st)) with (is_open st).
    destruct (is_open st) eqn:Hopen.
    + apply is_open_spec in Hopen as (i & Hws & Hs).
      unfold socket_state in Hs.
      destruct (sockets st !! i) as [k|] eqn:Hk; [|discriminate].
      injection Hs as Hs.
      unfold ws_close. cbn [ws clearTimeout set_timers]. rewrite Hws.
      eexists. split; [reflexivity|]. split; [exact Hnone|].
      exists i, k. cbn [sockets set_sockets clearTimeout set_timers].
      split; [reflexivity|]. split; [exact Hk|]. split; [exact Hs|]. split.
      * rewrite list_lookup_alter_eq, Hk. cbn. unfold close_socket. now rewrite Hs.
      * intros j Hj. now apply list_lookup_alter_ne.
    + eexists. split; [reflexivity|]. split; [exact Hnone | reflexivity].
Qed.

(** C9, the claim as written fails: the idle check armed when the socket
    opened is still due at 600000 after a text was enqueued at 1000 while
    the socket was closed. *)
Lemma enqueue_while_closed_keeps_timer :
  let st := state_of (run enqueue_after_close (started [] [])) in
  clock st = 1000
  /\ map text (msgQueue st) = [u "[INFO] Steve joined the game"]
  /\ List.filter is_idle (timers st)
     = [{| tid := 0; due := 600000; cb := IdleCheck |}].
Proof. vm_compute. repeat split. Qed.

Lemma idle_timer_discipline_witness :
  let st := state_of (run [WsOpen 0; Tick 600000] (started [] [])) in
  exists st',
    step (Fire 0) st = Normal st'
    /\ List.filter is_idle (timers st') = []
    /\ exists i k,
        ws st = Some i /\ sockets st !! i = Some k
        /\ sock_state k = OPEN
        /\ sockets st' !! i
           = Some {| sock_state := CLOSING; sock_cookie := sock_cookie k;
                     sock_closes := S (sock_closes k) |}
        /\ forall j, j <> i -> sockets st' !! j = sockets st !! j.
Proof.
  destruct (idle_timer_discipline [] [] [WsOpen 0; Tick 600000])
    as (_ & _ & _ & _ & H).
  apply (H 0%nat {| tid := 0; due := 600000; cb := IdleCheck |}).
  - reflexivity.
  - reflexivity.
  - vm_compute. discriminate.
Defined.

(** ** Reconnecting after a close *)

Lemma find_cleared (id : nat) (st : bridge) :
  find_timer id (clearTimeout id st) = None.
Proof.
  unfold find_timer, clearTimeout. cbn.
  induction (timers st) as [|t l IH]; [reflexivity|].
  cbn. destruct (tid t =? id)%nat eqn:E; cbn; [exact IH | now rewrite E].
Qed.

(** C5, as the code has it. A close event of a socket always arms one
    check, due 5000 ms later, whatever the queue holds, and creates no
    socket. The check cannot run before it is due. When it runs it is
    removed, and it is then that the queue is looked at: if the queue is not
    empty and no socket is open or connecting, exactly one socket is
    created, with the cookie of that moment; otherwise none is. *)
Theorem close_arms_one_check (st st2 : bridge) (i : nat) (t : timer) :
  (forall s, socket_state i st = Some s -> s <> CLOSED ->
     exists st',
       step (WsClose i) st = Normal st'
       /\ timers st' = timers st ++ [{| tid := next_timer st;
                                        due := clock st + 5000;
                                        cb := ReconnectCheck |}]
       /\ length (sockets st') = length (sockets st)
       /\ ws st' = ws st /\ msgQueue st' = msgQueue st)
  /\ (find_timer (tid t) st2 = Some t -> cb t = ReconnectCheck ->
      (clock st2 < due t -> step (Fire (tid t)) st2 = Normal st2)
      /\ (due t <= clock st2 ->
          exists st3,
            step (Fire (tid t)) st2 = Normal st3
            /\ find_timer (tid t) st3 = None
            /\ msgQueue st3 = msgQueue st2
            /\ if queue_nonempty st2 && wants_socket st2
               then sockets st3 = sockets st2 ++ [new_socket st2]
                    /\ ws st3 = Some (length (sockets st2))
               else sockets st3 = sockets st2 /\ ws st3 = ws st2)).
Proof.
  split.
  - intros s Hs Hopen. cbn [step]. rewrite Hs.
    assert (Hgoal : exists st',
               on_close (set_socket_state i CLOSED st) = Normal st'
               /\ timers st' = timers st ++ [{| tid := next_timer st;
                                                due := clock st + 5000;
                                                cb := ReconnectCheck |}]
               /\ length (sockets st') = length (sockets st)
               /\ ws st' = ws st /\ msgQueue st' = msgQueue st).
    { eexists. split; [reflexivity|]. cbn.
      split; [reflexivity|]. split; [apply length_alter | now split]. }
    destruct s; [exact Hgoal..|congruence].
  - intros Hfind Hcb. cbn [step]. rewrite Hfind. split.
    + intros Hearly. destruct (Z.leb_spec (due t) (clock st2)); [lia | reflexivity].
    + intros Hdue. destruct (Z.leb_spec (due t) (clock st2)) as [_|]; [|lia].
      rewrite Hcb. cbn [run_callback].
      pose proof (find_cleared (tid t) st2) as Hgone.
      unfold queue_nonempty, wants_socket.
      change (msgQueue (clearTimeout (tid t) st2)) with (msgQueue st2).
      destruct (msgQueue st2) as [|m q] eqn:Hq; cbn [andb].
      * eexists. split; [reflexivity|]. now repeat split.
      * eexists. split; [reflexivity|].
        unfold connect.
        change (ws_readyState (clearTimeout (tid t) st2)) with (ws_readyState st2).
        destruct (ws_readyState st2) as [[]|]; now repeat split.
Qed.

Lemma close_arms_one_check_witness :
  let st := state_of (run [Line joined_line; WsClose 0] (started [] [])) in
  exists st3,
    step (Fire 0) (set_clock 5000 st) = Normal st3
    /\ find_timer 0 st3 = None
    /\ msgQueue st3 = msgQueue st
    /\ sockets st3 = sockets st ++ [new_socket st]
    /\ ws st3 = Some 1%nat.
Proof.
  destruct (close_arms_one_check
              (started [] [])
              (set_clock 5000
                 (state_of (run [Line joined_line; WsClose 0] (started [] []))))
              0 {| tid := 0; due := 5000; cb := ReconnectCheck |})
    as [_ H].
  destruct (H eq_refl eq_refl) as [_ H'].
  apply H'. vm_compute. discriminate.
Defined.

(** C5, the claim as written fails. The idle socket is closed while the
    queue is empty, and a check is armed all the same. It has consequences:
    in the longer run a socket is created at 5000, by the check of that
    first close, three seconds after the close at 2000 that found a message
    queued. *)
Lemma close_with_empty_queue_arms_check :
  (let st := state_of (run [WsOpen 0; WsClose 0] (started [] [])) in
   msgQueue st = []
   /\ List.filter is_reconnect (timers st)
      = [{| tid := 1; due := 5000; cb := ReconnectCheck |}])
  /\ (let before := state_of (run (removelast close_then_retry) (started [] [])) in
      let after := state_of (run close_then_retry (started [] [])) in
      clock after = 5000
      /\ List.filter is_reconnect (timers before)
         = [{| tid := 1; due := 5000; cb := ReconnectCheck |};
            {| tid := 2; due := 7000; cb := ReconnectCheck |}]
      /\ length (sockets before) = 2%nat
      /\ length (sockets after) = 3%nat).
Proof. vm_compute. repeat split. Qed.

(* ===================================================================== *)
(** ** The HTTP relay *)
(* ===================================================================== *)





(* ===================================================================== *)
(** ** Cookie renewal *)
(* ===================================================================== *)

Lemma update_env_calls (w : renewal_world) (c : jsstring) (st : renew_state) :
  api_calls (update_env w c st) = api_calls st
  /\ cfg_COOKIE (update_env w c st) = cfg_COOKIE st.
Proof.
  unfold update_env.
  destruct (env_file st); [|now split].
  destruct (fs_read_ok w); [|now split].
  destruct (fs_write_ok w); now split.
Qed.

Lemma performRenewal_first_call (w : renewal_world) (st : renew_state) :
  exists more,
    api_calls (performRenewal w st)
    = api_calls st ++ PostTokens (cfg_COOKIE st) :: more.
Proof.
  unfold performRenewal.
  repeat match goal with
         | |- context [update_env w ?c ?s] =>
             rewrite (proj1 (update_env_calls w c s))
         | |- context [match ?x with _ => _ end] => destruct x
         end;
    cbn; first [now exists [] | (eexists; rewrite <- app_assoc; reflexivity)].
Qed.

(** C7, as the code has it. When the token of the cookie decodes to a
    payload whose [exp] is a number other than 0, [renewCookieIfNeeded]
    runs [performRenewal], whose first request is the token issuance under
    the current cookie, if [exp] minus the current time in whole seconds is
    under 10 days, and otherwise makes no request and leaves the cookie and
    the [.env] file as they are. *)
Theorem renewal_gate (w : renewal_world) (st : renew_state) (payload : jsval)
    (e : Z) :
  parseJwt w (sessionToken (cfg_COOKIE st)) = Some payload ->
  get payload (u "exp") = Found (JNum e) ->
  e <> 0 ->
  let remaining := e - now_ms w / 1000 in
  (remaining < 10 * 86400 ->
     renewCookieIfNeeded w st
     = performRenewal w
         (log LogRenewing (log (LogDaysLeft (Some remaining)) (log LogCheck st)))
     /\ exists more,
         api_calls (renewCookieIfNeeded w st)
         = api_calls st ++ PostTokens (cfg_COOKIE st) :: more)
  /\ (10 * 86400 <= remaining ->
      api_calls (renewCookieIfNeeded w st) = api_calls st
      /\ cfg_COOKIE (renewCookieIfNeeded w st) = cfg_COOKIE st
      /\ env_file (renewCookieIfNeeded w st) = env_file st).
Proof.
  intros Hparse Hexp He remaining.
  assert (Htruthy : truthy payload = true)
    by (destruct payload; try discriminate Hexp; reflexivity).
  assert (Hrun : renewCookieIfNeeded w st
                 = let st1 := log (LogDaysLeft (Some remaining)) (log LogCheck st) in
                   if remaining <? 10 * (60 * 60 * 24)
                   then performRenewal w (log LogRenewing st1) else st1).
  { unfold renewCookieIfNeeded. rewrite Hparse, Htruthy, Hexp. cbn.
    destruct (Z.eqb_spec e 0); [contradiction | reflexivity]. }
  rewrite Hrun. cbv zeta.
  change (10 * (60 * 60 * 24)) with (10 * 86400).
  destruct (Z.ltb_spec remaining (10 * 86400)); split; intros H'; try lia.
  - split; [reflexivity|].
    exact (performRenewal_first_call w
             (log LogRenewing
                (log (LogDaysLeft (Some remaining)) (log LogCheck st)))).
  - now repeat split.
Qed.

Lemma renewal_gate_witness :
  let w := quiet_world 0 in
  let nine := with_cookie (u "session=h.eyJleHAiOjc3NzYwMH0.s") in
  let eleven := with_cookie (u "session=h.eyJleHAiOjk1MDQwMH0.s") in
  (renewCookieIfNeeded w nine
   = performRenewal w
       (log LogRenewing (log (LogDaysLeft (Some 777600)) (log LogCheck nine)))
   /\ exists more,
       api_calls (renewCookieIfNeeded w nine)
       = api_calls nine ++ PostTokens (cfg_COOKIE nine) :: more)
  /\ (api_calls (renewCookieIfNeeded w eleven) = api_calls eleven
      /\ cfg_COOKIE (renewCookieIfNeeded w eleven) = cfg_COOKIE eleven
      /\ env_file (renewCookieIfNeeded w eleven) = env_file eleven).
Proof.
  split.
  - destruct (renewal_gate (quiet_world 0)
                (with_cookie (u "session=h.eyJleHAiOjc3NzYwMH0.s"))
                (JObj [(u "exp", JNum 777600)]) 777600) as [H _].
    + vm_compute. reflexivity.
    + vm_compute. reflexivity.
    + discriminate.
    + apply H. vm_compute. reflexivity.
  - destruct (renewal_gate (quiet_world 0)
                (with_cookie (u "session=h.eyJleHAiOjk1MDQwMH0.s"))
                (JObj [(u "exp", JNum 950400)]) 950400) as [_ H].
    + vm_compute. reflexivity.
    + vm_compute. reflexivity.
    + discriminate.
    + apply H. vm_compute. discriminate.
Defined.

(** C7, the claim as written fails: the payload has an [exp] field, 0, the
    time is far later, so that the remaining validity is under 10 days, and
    no request is made: the check is skipped. *)
Lemma zero_exp_skips_renewal :
  let w := quiet_world 1000000000000 in
  let st := with_cookie (u "session=h.eyJleHAiOjB9.s") in
  (parseJwt w (sessionToken (cfg_COOKIE st)) = Some (JObj [(u "exp", JNum 0)])
   /\ 0 - now_ms w / 1000 < 10 * 86400)
  /\ api_calls (renewCookieIfNeeded w st) = []
  /\ console (renewCookieIfNeeded w st) = [LogCheck; LogSkipped].
Proof. vm_compute. repeat split. Qed.

(** ** A failed exchange *)

(** C8. If a step of the exchange fails (the token request is not OK, the
    token response is invalid, the login is not OK, the login response has
    no Set-Cookie header, or a request does not complete), [performRenewal]
    reports the failure and leaves both [CONFIG.COOKIE] and the [.env] file
    as they were. *)
Theorem failed_exchange_changes_nothing (w : renewal_world) (st : renew_state) :
  exchange_fails w ->
  cfg_COOKIE (performRenewal w st) = cfg_COOKIE st
  /\ env_file (performRenewal w st) = env_file st
  /\ exists e, console (performRenewal w st) = console st ++ [LogRenewFailed e].
Proof.
  intros Hfail. unfold performRenewal.
  destruct (fetch_tokens w) as [r|] eqn:Hr; [|cbn; eauto].
  destruct (tok_ok r) eqn:Hok; cbn [negb]; [|cbn; eauto].
  destruct (tok_json r) as [data|] eqn:Hj; [|cbn; eauto].
  destruct (get data (u "success")) as [| |s] eqn:Hs;
    destruct (get data (u "token")) as [| |tok] eqn:Ht; try (cbn; now eauto).
  destruct (truthy_result (Found s)) eqn:Hts; cbn [negb orb]; [|cbn; eauto].
  destruct (truthy tok) eqn:Htt; cbn [negb]; [|cbn; eauto].
  destruct (fetch_login w) as [l|] eqn:Hl; [|cbn; eauto].
  destruct (login_ok l) eqn:Hlok; cbn [negb]; [|cbn; eauto].
  destruct (login_set_cookie l) as [[|a h]|] eqn:Hc; try (cbn; now eauto).
  exfalso.
  destruct Hfail as [(r' & Hr' & Hok') | [(r' & data' & Hr' & Hj' & Hinv)
    | [(l' & Hl' & Hok') | [(l' & Hl' & Hc') | [Hr' | [(r' & Hr' & Hj') | Hl']]]]]].
  - congruence.
  - assert (r' = r) by congruence. subst r'.
    assert (data' = data) by congruence. subst data'.
    rewrite Hs, Ht in Hinv. cbn [truthy_result] in *.
    rewrite Htt in Hinv. cbn in Hts. rewrite Hts in Hinv. discriminate.
  - congruence.
  - assert (l' = l) by congruence. subst l'. rewrite Hc in Hc'. discriminate.
  - congruence.
  - congruence.
  - congruence.
Qed.

Lemma failed_exchange_changes_nothing_witness :
  let st := with_cookie (u "session=h.eyJleHAiOjB9.s") in
  cfg_COOKIE (performRenewal tokens_forbidden st) = cfg_COOKIE st
  /\ env_file (performRenewal tokens_forbidden st) = env_file st
  /\ exists e,
      console (performRenewal tokens_forbidden st)
      = console st ++ [LogRenewFailed e].
Proof.
  apply (failed_exchange_changes_nothing tokens_forbidden).
  left. eexists. split; reflexivity.
Defined.

(* ===================================================================== *)
(** * Further properties of the code *)
(* ===================================================================== *)

(** ** The line parser, rule by rule *)

Lemma first_match_Some (rs : list rule) (line t : jsstring) :
  first_match rs line = Some t ->
  exists r m, In r rs /\ js_match (rule_re r) line = Some m.
Proof.
  induction rs as [|r rs IH]; [discriminate|]. cbn [first_match].
  destruct (js_match (rule_re r) line) as [m|] eqn:Hm.
  - intros _. exists r, m. split; [now left | exact Hm].
  - intros H. destruct (IH H) as (r' & m' & Hin & Hm').
    exists r', m'. split; [now right | exact Hm'].
Qed.

(** The test for [/INFO]] at the head of [handleLogLine] is an
    optimisation only: with or without it, what is relayed is the rendering
    of the first rule that matches, and a line without the marker is matched
    by no rule. *)
Theorem prefilter_changes_nothing (line : jsstring) (st : bridge) :
  parse line = first_match rules line
  /\ handleLogLine line st
     = match first_match rules line with
       | Some t => sendToChatroom t st
       | None => Normal st
       end
  /\ (includes (u "/INFO]") line = false ->
      forall r, In r rules -> js_match (rule_re r) line = None).
Proof.
  assert (Hparse : parse line = first_match rules line).
  { unfold parse. destruct (includes (u "/INFO]") line) eqn:Hinc; [reflexivity|].
    destruct (first_match rules line) as [t|] eqn:Hf; [|reflexivity].
    apply first_match_Some in Hf as (r & m & Hin & Hm).
    now rewrite (rule_match_has_marker r line m Hin Hm) in Hinc. }
  split; [exact Hparse|]. split.
  - now rewrite handleLogLine_parse, Hparse.
  - intros Hinc r Hin.
    destruct (js_match (rule_re r) line) as [m|] eqn:Hm; [|reflexivity].
    now rewrite (rule_match_has_marker r line m Hin Hm) in Hinc.
Qed.

Lemma prefilter_changes_nothing_witness :
  js_match leaveRe (u "[12:00:00] [Server thread/WARN]: Steve left the game")
  = None.
Proof.
  destruct (prefilter_changes_nothing
              (u "[12:00:00] [Server thread/WARN]: Steve left the game")
              (started [] [])) as (_ & _ & H).
  apply (H eq_refl leave_rule). simpl. tauto.
Defined.

Section MatcherBacktracking.

Context {R : Type}.

Lemma star_k_stop_at (p : N -> bool) (l s : jsstring) (a : N) (l' : jsstring)
    (k : jsstring -> option R) :
  l = a :: l' -> p a = false -> star_k p (l ++ s) k = k (l ++ s).
Proof. intros -> H. cbn. now rewrite H. Qed.



Lemma rmatch_opt_taken (r : regex) (s : jsstring) (c : caps)
    (k : jsstring -> caps -> option R) (x : R) :
  rmatch r s c k = Some x -> rmatch (Opt r) s c k = Some x.
Proof. intros H. cbn [rmatch]. now rewrite H. Qed.

Lemma rmatch_opt_skipped (r : regex) (s : jsstring) (c : caps)
    (k : jsstring -> caps -> option R) :
  rmatch r s c k = None -> rmatch (Opt r) s c k = k s c.
Proof. intros H. cbn [rmatch]. now rewrite H. Qed.

End MatcherBacktracking.

Lemma rmatch_chat_tail (player msg : jsstring) (c : caps) :
  player <> [] -> forallb (not_char ">") player = true ->
  msg <> [] -> forallb dot msg = true ->
  rmatch (seqs [L "<"; Grp 1 (Plus (not_char ">")); L "> "; Grp 2 (Plus dot)])
    (u "<" ++ player ++ u "> " ++ msg) c (fun s' c' => Some (s', c'))
  = Some ([], (2%nat, msg) :: (1%nat, player) :: c).
Proof.
  intros Hp Hpc Hm Hmd. cbn [seqs]. unfold L.
  seq_step. rewrite rmatch_lit.
  seq_step. grp_step.
  apply rmatch_plus_greedy; [assumption..|].
  rewrite (star_k_stop_at _ (u "> ") msg 62 (u " ")) by reflexivity.
  rewrite firstn_app_minus.
  seq_step. rewrite rmatch_lit. grp_step.
  rewrite <- (app_nil_r msg) at 1.
  apply rmatch_plus_greedy; [assumption..|].
  cbn [star_k length]. now rewrite Nat.sub_0_r, firstn_all.
Qed.

Lemma chat_match (h1 h2 m1 m2 s1 s2 : N) (n pre player msg : jsstring) :
  forallb is_digit [h1; h2; m1; m2; s1; s2] = true ->
  n <> [] -> forallb is_digit n = true ->
  (pre = [] \/ exists tag, tag <> [] /\ forallb (not_char "]") tag = true
                           /\ pre = u "[" ++ tag ++ u "] ") ->
  player <> [] -> forallb (not_char ">") player = true ->
  msg <> [] -> forallb dot msg = true ->
  exists m,
    js_match chatRe
      (chat_thread_line h1 h2 m1 m2 s1 s2 n (pre ++ u "<" ++ player ++ u "> " ++ msg))
    = Some m
    /\ grp m 1 = player /\ grp m 2 = msg.
Proof.
  intros Hd Hn Hnd Hpre Hp Hpc Hm Hmd.
  assert (Hhead : forall payload x,
             rmatch (seqs [Opt (seqs [L "["; Plus (not_char "]"); L "] "]);
                           L "<"; Grp 1 (Plus (not_char ">")); L "> ";
                           Grp 2 (Plus dot)])
               payload [] (fun s' c => Some (s', c)) = Some x ->
             rmatch chatRe (chat_thread_line h1 h2 m1 m2 s1 s2 n payload) []
               (fun s' c => Some (s', c)) = Some x).
  { intros payload x Hx. unfold chat_thread_line, chatRe. cbn [seqs] in *.
    seq_step. rewrite (rmatch_re_time _ _ _ _ _ _ _ _ _ Hd).
    seq_step. unfold L at 1. rewrite rmatch_lit.
    seq_step. apply rmatch_plus_greedy; [assumption..|].
    rewrite (star_k_stop_at _ (u "/INFO]: ") _ 47 (u "INFO]: ")) by reflexivity.
    seq_step. unfold L at 1. rewrite rmatch_lit. exact Hx. }
  exists {| m_before := [];
            m_text := firstn
                        (length (chat_thread_line h1 h2 m1 m2 s1 s2 n
                                   (pre ++ u "<" ++ player ++ u "> " ++ msg)) - 0)
                        (chat_thread_line h1 h2 m1 m2 s1 s2 n
                           (pre ++ u "<" ++ player ++ u "> " ++ msg));
            m_after := [];
            m_caps := [(2%nat, msg); (1%nat, player)] |}.
  split; [|split; reflexivity].
  unfold js_match.
  apply (exec_from_here chatRe [] _ [] [(2%nat, msg); (1%nat, player)]).
  apply Hhead. cbn [seqs]. seq_step.
  change (Seq (L "<") (Seq (Grp 1 (Plus (not_char ">")))
                        (Seq (L "> ") (Grp 2 (Plus dot)))))
    with (seqs [L "<"; Grp 1 (Plus (not_char ">")); L "> "; Grp 2 (Plus dot)]).
  destruct Hpre as [->|(tag & Htag & Htagc & ->)].
  - rewrite rmatch_opt_skipped by reflexivity.
    cbn [app]. now apply rmatch_chat_tail.
  - apply rmatch_opt_taken.
    cbn [seqs]. unfold L at 1 3.
    seq_step. rewrite <- !app_assoc, rmatch_lit.
    seq_step. apply rmatch_plus_greedy; [assumption..|].
    rewrite (star_k_stop_at _ (u "] ") _ 93 (u " ")) by reflexivity.
    unfold L. rewrite rmatch_lit.
    now apply rmatch_chat_tail.
Qed.

Lemma parse_by_rule (line : jsstring) (k : nat) (r : rule) (m : match_result) :
  rules !! k = Some r ->
  js_match (rule_re r) line = Some m ->
  (forall j r', (j < k)%nat -> rules !! j = Some r' ->
                js_match (rule_re r') line = None) ->
  parse line = Some (rule_fmt r m).
Proof.
  intros Hk Hm Hearlier. unfold parse.
  rewrite (rule_match_has_marker r line m);
    [|now apply list_elem_of_In, list_elem_of_lookup_2 with k|exact Hm].
  now apply (first_match_least rules line k).
Qed.

(** A chat line [[HH:MM:SS] [Async Chat Thread - #n/INFO]: <player> msg],
    with or without a bracketed tag such as [[Not Secure] ] before
    [<player>], is relayed as [[CHAT] <player> msg], the tag dropped: for
    every player name without [>], every one-line message and every tag
    without []]. *)
Theorem chat_line_relayed (h1 h2 m1 m2 s1 s2 : N) (n pre player msg : jsstring)
    (st : bridge) :
  forallb is_digit [h1; h2; m1; m2; s1; s2] = true ->
  n <> [] -> forallb is_digit n = true ->
  (pre = [] \/ exists tag, tag <> [] /\ forallb (not_char "]") tag = true
                           /\ pre = u "[" ++ tag ++ u "] ") ->
  player <> [] -> forallb (not_char ">") player = true ->
  msg <> [] -> forallb dot msg = true ->
  handleLogLine
    (chat_thread_line h1 h2 m1 m2 s1 s2 n (pre ++ u "<" ++ player ++ u "> " ++ msg))
    st
  = sendToChatroom (u "[CHAT] <" ++ player ++ u "> " ++ msg) st.
Proof.
  intros Hd Hn Hnd Hpre Hp Hpc Hm Hmd.
  destruct (chat_match h1 h2 m1 m2 s1 s2 n pre player msg
              Hd Hn Hnd Hpre Hp Hpc Hm Hmd) as (m & Hmatch & Hg1 & Hg2).
  rewrite handleLogLine_parse.
  rewrite (parse_by_rule _ 0 chat_rule m eq_refl Hmatch).
  - unfold chat_rule, rule_fmt. now rewrite Hg1, Hg2.
  - intros j r' Hj. lia.
Qed.

Lemma chat_line_relayed_witness :
  handleLogLine
    (chat_thread_line 49 50 48 48 48 48 (u "12")
       (u "[Not Secure] " ++ u "<" ++ u "Bob" ++ u "> " ++ u "hi > all"))
    (started [] [])
  = sendToChatroom (u "[CHAT] <" ++ u "Bob" ++ u "> " ++ u "hi > all") (started [] []).
Proof.
  apply (chat_line_relayed 49 50 48 48 48 48 (u "12") (u "[Not Secure] ")
           (u "Bob") (u "hi > all") (started [] [])).
  - reflexivity.
  - discriminate.
  - reflexivity.
  - right. exists (u "Not Secure"). split; [discriminate|]. split; reflexivity.
  - discriminate.
  - reflexivity.
  - discriminate.
  - reflexivity.
Defined.

(** The shape shared by the join and the leave pattern: a word, then a
    literal that starts with a space. *)
Lemma word_then_literal_match (h1 h2 m1 m2 s1 s2 : N) (name lit lit' tail : jsstring) :
  forallb is_digit [h1; h2; m1; m2; s1; s2] = true ->
  name <> [] -> forallb is_word name = true ->
  lit = 32%N :: lit' ->
  exists m,
    js_match (seqs [re_time; re_server; Grp 1 (Plus is_word); Lit lit])
      (server_line h1 h2 m1 m2 s1 s2 (name ++ lit ++ tail)) = Some m
    /\ grp m 1 = name.
Proof.
  intros Hd Hne Hname Hlit.
  eexists. split.
  - unfold js_match. apply exec_from_here.
    unfold server_line. cbn [seqs].
    seq_step. rewrite (rmatch_re_time _ _ _ _ _ _ _ _ _ Hd).
    seq_step. unfold re_server, L. rewrite rmatch_lit.
    seq_step. grp_step.
    apply rmatch_plus_greedy; [assumption..|].
    rewrite (star_k_stop_at _ lit tail 32 lit') by (assumption || reflexivity).
    rewrite firstn_app_minus. rewrite rmatch_lit. reflexivity.
  - reflexivity.
Qed.

(** A join line [[HH:MM:SS] [Server thread/INFO]: name joined the game],
    whatever follows on the line, is relayed as [[INFO] name joined the
    game]: what follows is dropped. ([name] is a word; the chat pattern
    matches nowhere on the line.) *)
Theorem join_line_relayed (h1 h2 m1 m2 s1 s2 : N) (name tail : jsstring)
    (st : bridge) :
  forallb is_digit [h1; h2; m1; m2; s1; s2] = true ->
  name <> [] -> forallb is_word name = true ->
  js_match chatRe
    (server_line h1 h2 m1 m2 s1 s2 (name ++ u " joined the game" ++ tail)) = None ->
  handleLogLine
    (server_line h1 h2 m1 m2 s1 s2 (name ++ u " joined the game" ++ tail)) st
  = sendToChatroom (u "[INFO] " ++ name ++ u " joined the game") st.
Proof.
  intros Hd Hne Hname Hchat.
  destruct (word_then_literal_match h1 h2 m1 m2 s1 s2 name
              (u " joined the game") (u "joined the game") tail
              Hd Hne Hname eq_refl) as (m & Hm & Hg).
  rewrite handleLogLine_parse.
  rewrite (parse_by_rule _ 1 join_rule m eq_refl Hm).
  - unfold join_rule, rule_fmt. now rewrite Hg.
  - intros j r' Hj Hr'. destruct j as [|j]; [|lia]. injection Hr' as <-. exact Hchat.
Qed.

Lemma join_line_relayed_witness :
  handleLogLine
    (server_line 49 50 48 48 48 48 (u "Steve" ++ u " joined the game" ++ u " twice"))
    (started [] [])
  = sendToChatroom (u "[INFO] " ++ u "Steve" ++ u " joined the game") (started [] []).
Proof.
  apply (join_line_relayed 49 50 48 48 48 48 (u "Steve") (u " twice") (started [] [])).
  - reflexivity.
  - discriminate.
  - reflexivity.
  - vm_compute. reflexivity.
Defined.



(** The welcome line of the server, [Hey name, sunshine! ...], whatever
    follows on the line, is relayed as [[INFO] Hey name, sunshine! ...], up
    to the end of the fixed text. ([name] is a word; the chat, join and
    leave patterns match nowhere on the line.) *)
Theorem welcome_line_relayed (h1 h2 m1 m2 s1 s2 : N) (name tail : jsstring)
    (st : bridge) :
  forallb is_digit [h1; h2; m1; m2; s1; s2] = true ->
  name <> [] -> forallb is_word name = true ->
  (forall r, In r [chat_rule; join_rule; leave_rule] ->
             js_match (rule_re r)
               (server_line h1 h2 m1 m2 s1 s2
                  (u "Hey " ++ name ++ u welcome_tail ++ tail)) = None) ->
  handleLogLine
    (server_line h1 h2 m1 m2 s1 s2 (u "Hey " ++ name ++ u welcome_tail ++ tail)) st
  = sendToChatroom (u "[INFO] Hey " ++ name ++ u welcome_tail) st.
Proof.
  intros Hd Hne Hname Hearlier.
  assert (Hm : exists m,
             js_match welcomeRe
               (server_line h1 h2 m1 m2 s1 s2
                  (u "Hey " ++ name ++ u welcome_tail ++ tail)) = Some m
             /\ grp m 1 = name).
  { eexists. split.
    - unfold js_match. apply exec_from_here.
      unfold server_line, welcomeRe. cbn [seqs].
      seq_step. rewrite (rmatch_re_time _ _ _ _ _ _ _ _ _ Hd).
      seq_step. unfold re_server, L. rewrite rmatch_lit.
      seq_step. rewrite rmatch_lit.
      seq_step. grp_step.
      apply rmatch_plus_greedy; [assumption..|].
      rewrite (star_k_stop_at _ (u welcome_tail) tail 44 (tl (u welcome_tail)))
        by reflexivity.
      rewrite firstn_app_minus, rmatch_lit. reflexivity.
    - reflexivity. }
  destruct Hm as (m & Hm & Hg).
  rewrite handleLogLine_parse.
  rewrite (parse_by_rule _ 3 welcome_rule m eq_refl Hm).
  - unfold welcome_rule, rule_fmt. now rewrite Hg.
  - intros j r' Hj Hr'. apply Hearlier.
    do 3 (destruct j as [|j]; [injection Hr' as <-; simpl; tauto|]).
    lia.
Qed.

Lemma welcome_line_relayed_witness :
  handleLogLine
    (server_line 49 50 48 48 48 48 (u "Hey " ++ u "Steve" ++ u welcome_tail ++ u " :)"))
    (started [] [])
  = sendToChatroom (u "[INFO] Hey " ++ u "Steve" ++ u welcome_tail) (started [] []).
Proof.
  apply (welcome_line_relayed 49 50 48 48 48 48 (u "Steve") (u " :)") (started [] [])).
  - reflexivity.
  - discriminate.
  - reflexivity.
  - intros r Hr. simpl in Hr.
    repeat (destruct Hr as [<-|Hr]; [vm_compute; reflexivity|]).
    destruct Hr.
Defined.






(* ===================================================================== *)
(** ** The connection *)
(* ===================================================================== *)

Lemma ws_readyState_new (st : bridge) (k : socket) :
  ws_readyState (set_ws (Some (length (sockets st)))
                   (set_sockets (sockets st ++ [k]) st))
  = Some (sock_state k).
Proof.
  unfold ws_readyState. cbn.
  now rewrite (list_lookup_middle (sockets st) [] k (length (sockets st)) eq_refl).
Qed.

(** [connect()] is idempotent. It does nothing while a socket is open or
    connecting; otherwise it creates exactly one socket, connecting, with
    the cookie of that moment, and makes it [ws]. Either way a socket is
    open or connecting afterwards, so that a second call does nothing. *)
Theorem connect_idempotent (st : bridge) :
  connect (connect st) = connect st
  /\ wants_socket (connect st) = false
  /\ (wants_socket st = false -> connect st = st)
  /\ (wants_socket st = true ->
      sockets (connect st) = sockets st ++ [new_socket st]
      /\ ws (connect st) = Some (length (sockets st))
      /\ ws_readyState (connect st) = Some CONNECTING).
Proof.
  assert (Hnew : wants_socket st = true ->
                 connect st = set_ws (Some (length (sockets st)))
                                (set_sockets (sockets st ++ [new_socket st]) st)).
  { unfold wants_socket, connect. now destruct (ws_readyState st) as [[]|]. }
  assert (Hold : wants_socket st = false -> connect st = st).
  { unfold wants_socket, connect. now destruct (ws_readyState st) as [[]|]. }
  assert (Hafter : wants_socket (connect st) = false).
  { destruct (wants_socket st) eqn:Hw.
    - rewrite (Hnew eq_refl). unfold wants_socket. now rewrite ws_readyState_new.
    - now rewrite (Hold eq_refl). }
  split; [|split; [exact Hafter|split; [exact Hold|]]].
  - unfold wants_socket in Hafter. unfold connect at 1.
    now destruct (ws_readyState (connect st)) as [[]|].
  - intros Hw. rewrite (Hnew Hw). cbn. split; [reflexivity|]. split; [reflexivity|].
    apply (ws_readyState_new st (new_socket st)).
Qed.

Lemma connect_idempotent_witness :
  let st := state_of (run [WsClose 0] (started (u "session=a.b.c") [])) in
  sockets (connect st) = sockets st ++ [new_socket st]
  /\ ws (connect st) = Some (length (sockets st))
  /\ ws_readyState (connect st) = Some CONNECTING.
Proof.
  destruct (connect_idempotent
              (state_of (run [WsClose 0] (started (u "session=a.b.c") []))))
    as (_ & _ & _ & H).
  apply H. reflexivity.
Defined.

(** *** One live socket *)

Lemma flushMsgQueue_sockets (st : bridge) :
  ws (state_of (flushMsgQueue st)) = ws st
  /\ sockets (state_of (flushMsgQueue st)) = sockets st.
Proof.
  unfold flushMsgQueue. destruct (is_open st); cbn [negb]; [|now split].
  pose proof (flush_loop_timers (msgQueue st) st) as (_ & _ & _ & Hs & Hw & _).
  destruct (flush_loop (msgQueue st) st) as [st'|st']; cbn [state_of] in *.
  - destruct (resetIdleTimer_queue st') as (_ & _ & _ & -> & -> & _). now split.
  - now split.
Qed.

Lemma one_live_ext (st st' : bridge) :
  ws st' = ws st -> sockets st' = sockets st ->
  one_live_socket st -> one_live_socket st'.
Proof. unfold one_live_socket, ws_latest. now intros -> ->. Qed.

Lemma connect_one_live (st : bridge) :
  one_live_socket st -> one_live_socket (connect st).
Proof.
  intros [Hlast Hone]. split; [now apply connect_ws_latest|].
  unfold connect. destruct (ws_readyState st) as [s|] eqn:Hs.
  - assert (Hcase : live s = true \/ live s = false) by (destruct (live s); auto).
    destruct Hcase as [Hl|Hl].
    + destruct s; try discriminate Hl; exact Hone.
    + assert (Hgoal : forall i k,
                 (sockets st ++ [new_socket st]) !! i = Some k ->
                 live (sock_state k) = true -> Some (length (sockets st)) = Some i).
      { intros i k Hi Hk.
        destruct (Nat.lt_ge_cases i (length (sockets st))) as [Hlt|Hge].
        - rewrite lookup_app_l in Hi by exact Hlt.
          pose proof (Hone i k Hi Hk) as Hws.
          unfold ws_readyState in Hs. rewrite Hws, Hi in Hs.
          injection Hs as <-. congruence.
        - apply lookup_lt_Some in Hi. rewrite length_app in Hi. cbn in Hi.
          f_equal. lia. }
      destruct s; try discriminate Hl; exact Hgoal.
  - intros i k Hi Hk. cbn in *.
    destruct (Nat.lt_ge_cases i (length (sockets st))) as [Hlt|Hge].
    + rewrite lookup_app_l in Hi by exact Hlt.
      pose proof (Hone i k Hi Hk) as Hws.
      unfold ws_readyState in Hs. now rewrite Hws, Hi in Hs.
    + apply lookup_lt_Some in Hi. rewrite length_app in Hi. cbn in Hi.
      f_equal. lia.
Qed.

Lemma set_socket_state_one_live (i : nat) (s : readyState) (st : bridge) :
  one_live_socket st ->
  live s = false \/ ws st = Some i ->
  one_live_socket (set_socket_state i s st).
Proof.
  intros [Hlast Hone] Hs. split.
  - unfold ws_latest, set_socket_state in *. cbn. now rewrite length_alter.
  - intros j k Hj Hk. unfold set_socket_state in *. cbn in *.
    destruct (decide (i = j)) as [->|Hne].
    + rewrite list_lookup_alter_eq in Hj.
      destruct (sockets st !! j) as [k0|] eqn:Hk0; [|discriminate].
      cbn in Hj. injection Hj as <-. cbn in Hk.
      destruct Hs as [Hs|Hs]; [congruence | exact Hs].
    + rewrite list_lookup_alter_ne in Hj by exact Hne. now apply (Hone j k).
Qed.

Lemma ws_close_one_live (st : bridge) :
  one_live_socket st -> one_live_socket (state_of (ws_close st)).
Proof.
  intros H. unfold ws_close.
  destruct (ws st) as [i|] eqn:Hws; cbn [state_of]; [|exact H].
  destruct H as [Hlast Hone]. split.
  - unfold ws_latest in *. cbn. rewrite Hws in *. now rewrite length_alter.
  - intros j k Hj Hk. cbn in *. rewrite Hws.
    destruct (decide (i = j)) as [->|Hne]; [reflexivity|].
    rewrite list_lookup_alter_ne in Hj by exact Hne.
    rewrite <- Hws. now apply (Hone j k).
Qed.

Lemma sendToChatroom_one_live (t : jsstring) (st : bridge) :
  one_live_socket st -> one_live_socket (state_of (sendToChatroom t st)).
Proof.
  intros H. unfold sendToChatroom. set (st1 := set_msgQueue _ st).
  assert (H1 : one_live_socket st1) by exact H.
  destruct (is_open st1).
  - destruct (flushMsgQueue_sockets st1) as [Hw Hs]. now apply (one_live_ext st1).
  - now apply connect_one_live.
Qed.

Lemma step_one_live (e : event) (st : bridge) :
  one_live_socket st -> one_live_socket (state_of (step e st)).
Proof.
  intros H. destruct e as [dt|l|i|i|i|id]; cbn [step].
  - now destruct (0 <=? dt).
  - rewrite handleLogLine_parse.
    destruct (parse l); [now apply sendToChatroom_one_live | exact H].
  - destruct (socket_state i st) as [[]|] eqn:Hi; try exact H.
    unfold on_open.
    destruct (flushMsgQueue_sockets (set_socket_state i OPEN st)) as [Hw Hs].
    apply (one_live_ext (set_socket_state i OPEN st)); [assumption..|].
    apply set_socket_state_one_live; [exact H|]. right.
    unfold socket_state in Hi.
    destruct (sockets st !! i) as [k|] eqn:Hk; [|discriminate].
    injection Hi as Hi. apply (proj2 H i k Hk). now rewrite Hi.
  - destruct (socket_state i st) as [[]|]; try exact H;
      (apply (one_live_ext (set_socket_state i CLOSED st)); [reflexivity..|];
       apply set_socket_state_one_live; [exact H | now left]).
  - destruct (socket_state i st) as [[]|]; try exact H;
      (apply ws_close_one_live, set_socket_state_one_live; [exact H | now left]).
  - destruct (find_timer id st) as [t|]; [|exact H].
    destruct (due t <=? clock st); [|exact H].
    assert (H1 : one_live_socket (clearTimeout id st)) by exact H.
    destruct (cb t); cbn [run_callback].
    + destruct (is_open _); [now apply ws_close_one_live | exact H1].
    + destruct (msgQueue _); [exact H1 | now apply connect_one_live].
Qed.

Lemma run_one_live (evs : list event) (st : bridge) :
  one_live_socket st -> one_live_socket (state_of (run evs st)).
Proof.
  revert st. induction evs as [|e evs IH]; intros st H; [exact H|].
  cbn [run]. pose proof (step_one_live e st H) as Hstep.
  destruct (step e st) as [st'|st']; [now apply IH | exact Hstep].
Qed.

Lemma started_one_live (cookie : jsstring) (script : list bool) :
  one_live_socket (started cookie script).
Proof.
  split; [reflexivity|]. intros [|i] k Hi _; [reflexivity | discriminate Hi].
Qed.

(** In every state the process can reach, whatever the order of events, at
    most one socket is open or connecting, and it is [ws]: no second socket
    is ever opened beside a live one, and an old socket never comes back. *)
Theorem never_two_live_sockets (cookie : jsstring) (script : list bool)
    (evs : list event) (i j : nat) (ki kj : socket) :
  let st := state_of (run evs (started cookie script)) in
  sockets st !! i = Some ki -> live (sock_state ki) = true ->
  sockets st !! j = Some kj -> live (sock_state kj) = true ->
  i = j /\ ws st = Some i.
Proof.
  intros st Hi Hli Hj Hlj.
  destruct (run_one_live evs (started cookie script) (started_one_live _ _))
    as [_ Hone].
  pose proof (Hone i ki Hi Hli) as Hwi. pose proof (Hone j kj Hj Hlj) as Hwj.
  split; [congruence | exact Hwi].
Qed.

Lemma never_two_live_sockets_witness :
  let st := state_of (run abc_run (started [] [])) in
  1%nat = 1%nat /\ ws st = Some 1%nat.
Proof.
  apply (never_two_live_sockets [] [] abc_run 1 1
           {| sock_state := OPEN; sock_cookie := []; sock_closes := 0 |}
           {| sock_state := OPEN; sock_cookie := []; sock_closes := 0 |});
    reflexivity.
Defined.

(** *** Nothing waits for ever *)

Lemma flushMsgQueue_drains (st st' : bridge) :
  flushMsgQueue st = Normal st' -> is_open st = true -> msgQueue st' = [].
Proof.
  unfold flushMsgQueue. intros H Hopen. rewrite Hopen in H. cbn [negb] in H.
  apply is_open_spec in Hopen as (i & Hws & Hi).
  pose proof (flush_loop_spec (msgQueue st) st i Hws Hi eq_refl) as Hloop.
  destruct (flush_loop (msgQueue st) st) as [st1|st1]; [|discriminate].
  injection H as <-. subst st1.
  now destruct (resetIdleTimer_queue
                  (set_wire (wire st ++ frames i (clock st) (msgQueue st))
                     (drop (length (msgQueue st)) (send_script st))
                     (set_msgQueue [] st))) as (-> & _).
Qed.

Lemma ws_readyState_ext (st st' : bridge) :
  ws st' = ws st -> sockets st' = sockets st ->
  ws_readyState st' = ws_readyState st.
Proof. unfold ws_readyState. now intros -> ->. Qed.

Lemma flushMsgQueue_retry (st : bridge) :
  retry_in_sight st -> retry_in_sight (state_of (flushMsgQueue st)).
Proof.
  intros H. destruct (is_open st) eqn:Hopen.
  - destruct (flushMsgQueue st) as [st'|st'] eqn:Hf; cbn [state_of].
    + left. now apply (flushMsgQueue_drains st).
    + right. left. exists OPEN. split; [|discriminate].
      pose proof (flushMsgQueue_sockets st) as [Hw Hs]. rewrite Hf in Hw, Hs.
      cbn [state_of] in Hw, Hs. rewrite (ws_readyState_ext st st' Hw Hs).
      unfold is_open in Hopen. now destruct (ws_readyState st) as [[]|].
  - unfold flushMsgQueue. now rewrite Hopen.
Qed.

Lemma connect_retry (st : bridge) : retry_in_sight (connect st).
Proof.
  right. left.
  assert (Hw : wants_socket (connect st) = false).
  { unfold connect.
    destruct (ws_readyState st) as [[]|] eqn:Hs; unfold wants_socket;
      rewrite ?ws_readyState_new, ?Hs; reflexivity. }
  unfold wants_socket in Hw.
  destruct (ws_readyState (connect st)) as [[]|]; try discriminate Hw; eauto.
Qed.

Lemma ws_close_retry (st : bridge) :
  retry_in_sight st -> retry_in_sight (state_of (ws_close st)).
Proof.
  intros H. unfold ws_close.
  destruct (ws st) as [i|] eqn:Hws; cbn [state_of]; [|exact H].
  destruct H as [Hq|[(s & Hs & Hne)|Ht]].
  - now left.
  - right. left. unfold ws_readyState in *. cbn. rewrite Hws in *.
    rewrite list_lookup_alter_eq.
    destruct (sockets st !! i) as [k|]; [|discriminate]. cbn in *.
    injection Hs as <-. exists CLOSING. split; [|discriminate].
    destruct (sock_state k); congruence.
  - right. right. exact Ht.
Qed.

Lemma set_socket_state_retry (i : nat) (s : readyState) (st : bridge) :
  s <> CLOSED -> retry_in_sight st -> retry_in_sight (set_socket_state i s st).
Proof.
  intros Hs [Hq|[(s0 & Hs0 & Hne)|Ht]].
  - now left.
  - right. left. unfold ws_readyState, set_socket_state in *. cbn.
    destruct (ws st) as [j|]; [|discriminate].
    destruct (decide (i = j)) as [->|Hij].
    + rewrite list_lookup_alter_eq.
      destruct (sockets st !! j) as [k|]; [|discriminate]. cbn. eauto.
    + rewrite list_lookup_alter_ne by exact Hij. eauto.
  - right. right. exact Ht.
Qed.

Lemma sendToChatroom_retry (t : jsstring) (st : bridge) :
  retry_in_sight (state_of (sendToChatroom t st)).
Proof.
  unfold sendToChatroom. set (st1 := set_msgQueue _ st).
  destruct (is_open st1) eqn:Hopen; [|apply connect_retry].
  apply flushMsgQueue_retry. right. left. exists OPEN. split; [|discriminate].
  unfold is_open in Hopen. now destruct (ws_readyState st1) as [[]|].
Qed.

Lemma other_timer_survives (id : nat) (st : bridge) (t t' : timer) :
  timers_ok st -> t ∈ timers st -> tid t = id -> t' ∈ timers st ->
  cb t' <> cb t -> t' ∈ timers (clearTimeout id st).
Proof.
  intros (Hnd & _ & _) Ht Hid Ht' Hcb. unfold clearTimeout. cbn.
  apply list_elem_of_In, filter_In. split; [now apply list_elem_of_In|].
  apply negb_true_iff, Nat.eqb_neq. intros Heq.
  apply Hcb. f_equal.
  clear Hcb. revert Hnd Ht Ht'. generalize (timers st). intros l.
  induction l as [|x l IH]; intros Hnd Ht Ht'; [now apply elem_of_nil in Ht|].
  cbn in Hnd. apply NoDup_cons in Hnd as [Hx Hnd].
  apply elem_of_cons in Ht as [->|Ht]; apply elem_of_cons in Ht' as [->|Ht'].
  - reflexivity.
  - exfalso. apply Hx. apply list_elem_of_fmap. exists t'. split; [congruence|exact Ht'].
  - exfalso. apply Hx. apply list_elem_of_fmap. exists t. split; [congruence|exact Ht].
  - now apply IH.
Qed.

Lemma step_retry (e : event) (st : bridge) :
  timers_ok st -> retry_in_sight st -> retry_in_sight (state_of (step e st)).
Proof.
  intros Hok H. destruct e as [dt|l|i|i|i|id]; cbn [step].
  - now destruct (0 <=? dt).
  - rewrite handleLogLine_parse.
    destruct (parse l); [apply sendToChatroom_retry | exact H].
  - destruct (socket_state i st) as [[]|]; try exact H.
    apply flushMsgQueue_retry, set_socket_state_retry; [discriminate | exact H].
  - destruct (socket_state i st) as [[]|]; try exact H;
      (right; right;
       exists {| tid := next_timer st; due := clock st + 5000; cb := ReconnectCheck |};
       split; [|reflexivity]; cbn;
       apply elem_of_app; right; apply list_elem_of_singleton; reflexivity).
  - destruct (socket_state i st) as [[]|]; try exact H;
      (apply ws_close_retry, set_socket_state_retry; [discriminate | exact H]).
  - destruct (find_timer id st) as [t|] eqn:Hfind; [|exact H].
    destruct (due t <=? clock st); [|exact H].
    apply find_timer_Some in Hfind as [Hin Hid].
    destruct (cb t) eqn:Hcb; cbn [run_callback].
    + assert (H1 : retry_in_sight (clearTimeout id st)).
      { destruct H as [Hq|[Hs|(t' & Ht' & Hcb')]].
        - now left.
        - right. left. exact Hs.
        - right. right. exists t'. split; [|exact Hcb'].
          apply (other_timer_survives id st t t' Hok Hin Hid Ht'). congruence. }
      destruct (is_open _); [now apply ws_close_retry | exact H1].
    + destruct (msgQueue (clearTimeout id st)) eqn:Hq;
        [now left | apply connect_retry].
Qed.

Lemma run_retry (evs : list event) (st : bridge) :
  timers_ok st -> retry_in_sight st -> retry_in_sight (state_of (run evs st)).
Proof.
  revert st. induction evs as [|e evs IH]; intros st Hok H; [exact H|].
  cbn [run]. pose proof (step_retry e st Hok H) as Hstep.
  pose proof (step_timers_ok e st Hok) as Hok'.
  destruct (step e st) as [st'|st']; [now apply IH | exact Hstep].
Qed.

(** In every state the process can reach, a message that is still queued
    has something to wait for: a socket that is connecting, open or closing
    (whose open or close event will come), or a pending reconnect check. The
    queue is never left with a closed socket and no check armed. *)
Theorem queued_message_will_be_retried (cookie : jsstring) (script : list bool)
    (evs : list event) :
  let st := state_of (run evs (started cookie script)) in
  msgQueue st <> [] ->
  (exists s, ws_readyState st = Some s /\ s <> CLOSED)
  \/ exists t, t ∈ timers st /\ cb t = ReconnectCheck.
Proof.
  intros st Hq.
  destruct (run_retry evs (started cookie script)
              (started_timers_ok cookie script) (or_introl eq_refl))
    as [Hempty|H]; [contradiction | exact H].
Qed.

Lemma queued_message_will_be_retried_witness :
  let st := state_of (run (removelast close_then_retry) (started [] [])) in
  (exists s, ws_readyState st = Some s /\ s <> CLOSED)
  \/ exists t, t ∈ timers st /\ cb t = ReconnectCheck.
Proof.
  apply (queued_message_will_be_retried [] [] (removelast close_then_retry)).
  vm_compute. discriminate.
Defined.

(** *** Sockets are created on demand only *)

Lemma connect_cases (st : bridge) :
  connect st = st
  \/ (wants_socket st = true
      /\ sockets (connect st) = sockets st ++ [new_socket st]
      /\ ws (connect st) = Some (length (sockets st))
      /\ msgQueue (connect st) = msgQueue st).
Proof.
  unfold connect, wants_socket.
  destruct (ws_readyState st) as [[]|]; auto; right; now repeat split.
Qed.

(** One event creates at most one socket, and only a log line or a
    reconnect check can: a socket is created only while none is open or
    connecting and a message is waiting in the queue. Every other event
    leaves the number of sockets as it is. *)
Theorem socket_created_on_demand_only (e : event) (st : bridge) :
  let st' := state_of (step e st) in
  length (sockets st') = length (sockets st)
  \/ (sockets st' = sockets st ++ [new_socket st]
      /\ ws st' = Some (length (sockets st))
      /\ wants_socket st = true
      /\ msgQueue st' <> []
      /\ match e with Line _ | Fire _ => True | _ => False end).
Proof.
  destruct e as [dt|l|i|i|i|id]; cbn [step].
  - left. now destruct (0 <=? dt).
  - rewrite handleLogLine_parse.
    destruct (parse l) as [t|]; [|now left].
    unfold sendToChatroom. set (st1 := set_msgQueue _ st).
    destruct (is_open st1).
    + left. now rewrite (proj2 (flushMsgQueue_sockets st1)).
    + cbn [state_of].
      destruct (connect_cases st1) as [->|(Hw & Hs & Hws & Hq)]; [now left|].
      right. rewrite Hs, Hws, Hq. repeat split; try assumption.
      subst st1. cbn. now destruct (msgQueue st).
  - left. destruct (socket_state i st) as [[]|]; try reflexivity.
    unfold on_open. rewrite (proj2 (flushMsgQueue_sockets _)). cbn.
    apply length_alter.
  - left. destruct (socket_state i st) as [[]|]; try reflexivity;
      cbn; apply length_alter.
  - left. destruct (socket_state i st) as [[]|]; try reflexivity;
      (unfold on_error, ws_close;
       destruct (ws (set_socket_state i CLOSING st)); cbn;
       rewrite ?length_alter; reflexivity).
  - destruct (find_timer id st) as [t|]; [|now left].
    destruct (due t <=? clock st); [|now left].
    destruct (cb t); cbn [run_callback].
    + left. destruct (is_open _); [|reflexivity].
      unfold ws_close. destruct (ws (clearTimeout id st)); cbn;
        rewrite ?length_alter; reflexivity.
    + destruct (msgQueue (clearTimeout id st)) as [|m q] eqn:Hq; [now left|].
      cbn [state_of].
      destruct (connect_cases (clearTimeout id st))
        as [->|(Hw & Hs & Hws & Hq')]; [now left|].
      right. rewrite Hs, Hws, Hq', Hq. now repeat split.
Qed.

(** *** Frames go to the open socket only *)

Lemma flushMsgQueue_wire (st : bridge) :
  exists new,
    wire (state_of (flushMsgQueue st)) = wire st ++ new
    /\ (new <> [] ->
        exists i, ws st = Some i /\ socket_state i st = Some OPEN
                  /\ Forall (fun f => fst f = i) new).
Proof.
  unfold flushMsgQueue. destruct (is_open st) eqn:Hopen; cbn [negb].
  - apply is_open_spec in Hopen as (i & Hws & Hi).
    pose proof (flush_loop_spec (msgQueue st) st i Hws Hi eq_refl) as H.
    assert (Hall : forall q, Forall (fun f => fst f = i) (frames i (clock st) q)).
    { intros q. unfold frames. apply Forall_fmap, Forall_true. reflexivity. }
    destruct (flush_loop (msgQueue st) st) as [st'|st']; cbn [state_of].
    + exists (frames i (clock st) (msgQueue st)).
      destruct (resetIdleTimer_queue st') as (_ & -> & _). subst st'.
      split; [reflexivity|]. intros _. exists i. now repeat split.
    + destruct H as (sent & failed & rest & _ & _ & ->).
      exists (frames i (clock st) sent).
      split; [reflexivity|]. intros _. exists i. now repeat split.
  - exists []. cbn. rewrite app_nil_r. split; [reflexivity | congruence].
Qed.

(** Whatever the event, the frames it hands to the transport are appended
    to those handed before, and all of them go to [ws] while it is open:
    nothing is ever sent on a socket that is connecting, closing or closed,
    nor on a socket that [ws] no longer refers to. *)
Theorem frames_go_to_the_open_socket (e : event) (st : bridge) :
  let st' := state_of (step e st) in
  exists new,
    wire st' = wire st ++ new
    /\ (new <> [] ->
        exists i, ws st' = Some i /\ socket_state i st' = Some OPEN
                  /\ Forall (fun f => fst f = i) new).
Proof.
  assert (Hnone : forall st', wire st' = wire st ->
            exists new, wire st' = wire st ++ new
              /\ (new <> [] ->
                  exists i, ws st' = Some i /\ socket_state i st' = Some OPEN
                            /\ Forall (fun f => fst f = i) new)).
  { intros st' Hw. exists []. rewrite app_nil_r. split; [exact Hw | congruence]. }
  assert (Hflush : forall st1, wire st1 = wire st ->
            exists new, wire (state_of (flushMsgQueue st1)) = wire st ++ new
              /\ (new <> [] ->
                  exists i, ws (state_of (flushMsgQueue st1)) = Some i
                            /\ socket_state i (state_of (flushMsgQueue st1)) = Some OPEN
                            /\ Forall (fun f => fst f = i) new)).
  { intros st1 Hw. destruct (flushMsgQueue_wire st1) as (new & Hnew & Hopen).
    exists new. rewrite Hnew, Hw. split; [reflexivity|].
    intros Hne. destruct (Hopen Hne) as (i & Hi & Hs & Hall).
    destruct (flushMsgQueue_sockets st1) as [Hws Hso].
    exists i. unfold socket_state in *. now rewrite Hws, Hso. }
  destruct e as [dt|l|i|i|i|id]; cbn [step].
  - apply Hnone. now destruct (0 <=? dt).
  - rewrite handleLogLine_parse.
    destruct (parse l) as [t|]; [|now apply Hnone].
    unfold sendToChatroom. set (st1 := set_msgQueue _ st).
    destruct (is_open st1); [now apply Hflush|].
    apply Hnone. cbn [state_of]. now destruct (connect_fields st1) as (_ & -> & _).
  - destruct (socket_state i st) as [[]|]; try (now apply Hnone).
    now apply Hflush.
  - apply Hnone. now destruct (socket_state i st) as [[]|].
  - apply Hnone. destruct (socket_state i st) as [[]|]; try reflexivity;
      (unfold on_error, ws_close;
       now destruct (ws (set_socket_state i CLOSING st))).
  - apply Hnone.
    destruct (find_timer id st) as [t|]; [|reflexivity].
    destruct (due t <=? clock st); [|reflexivity].
    destruct (cb t); cbn [run_callback].
    + destruct (is_open _); [|reflexivity].
      unfold ws_close. now destruct (ws (clearTimeout id st)).
    + destruct (msgQueue (clearTimeout id st)); [reflexivity|].
      cbn [state_of]. now destruct (connect_fields (clearTimeout id st)) as (_ & -> & _).
Qed.

Lemma frames_go_to_the_open_socket_witness :
  let st := state_of (run (removelast abc_run) (started [] [])) in
  exists i, ws (state_of (step (WsOpen 1) st)) = Some i
            /\ socket_state i (state_of (step (WsOpen 1) st)) = Some OPEN
            /\ Forall (fun f => fst f = i)
                 [(1%nat, u "[CHAT] <Steve> A"); (1%nat, u "[CHAT] <Steve> B");
                  (1%nat, u "[CHAT] <Steve> C")].
Proof.
  destruct (frames_go_to_the_open_socket (WsOpen 1)
              (state_of (run (removelast abc_run) (started [] []))))
    as (new & Hw & H).
  assert (Hnew : new = [(1%nat, u "[CHAT] <Steve> A"); (1%nat, u "[CHAT] <Steve> B");
                        (1%nat, u "[CHAT] <Steve> C")]).
  { vm_compute in Hw. exact (eq_sym Hw). }
  subst new. apply H. discriminate.
Defined.

(** *** Enqueueing *)

(** A text enqueued while [ws] is not open is put at the back of the queue
    with the time of the clock, nothing is sent and no timer is touched, and
    afterwards a socket is connecting: the one already connecting, or a new
    one. *)
Theorem enqueue_while_not_open (t : jsstring) (st : bridge) :
  is_open st = false ->
  exists st',
    sendToChatroom t st = Normal st'
    /\ msgQueue st' = msgQueue st ++ [{| text := t; time := clock st |}]
    /\ wire st' = wire st
    /\ timers st' = timers st
    /\ ws_readyState st' = Some CONNECTING
    /\ (wants_socket st = false -> sockets st' = sockets st).
Proof.
  intros Hclosed. unfold sendToChatroom. set (st1 := set_msgQueue _ st).
  change (is_open st1) with (is_open st). rewrite Hclosed.
  exists (connect st1). split; [reflexivity|].
  destruct (connect_fields st1) as (-> & -> & _ & -> & _).
  repeat split.
  - change (wants_socket st) with (wants_socket st1) in *.
    unfold is_open in Hclosed. change (ws_readyState st) with (ws_readyState st1) in *.
    unfold connect.
    destruct (ws_readyState st1) as [[]|] eqn:Hs; rewrite ?ws_readyState_new;
      try reflexivity; try exact Hs; discriminate Hclosed.
  - intros Hw. change (wants_socket st) with (wants_socket st1) in Hw.
    unfold connect, wants_socket in *.
    now destruct (ws_readyState st1) as [[]|].
Qed.

Lemma enqueue_while_not_open_witness :
  let st := state_of (run [WsClose 0] (started [] [])) in
  exists st',
    sendToChatroom (u "hi") st = Normal st'
    /\ msgQueue st' = msgQueue st ++ [{| text := u "hi"; time := clock st |}]
    /\ wire st' = wire st
    /\ timers st' = timers st
    /\ ws_readyState st' = Some CONNECTING
    /\ (wants_socket st = false -> sockets st' = sockets st).
Proof.
  apply (enqueue_while_not_open (u "hi")). reflexivity.
Defined.

(** A text enqueued while [ws] is open and the transport accepts frames is
    sent at once and as it is, without a delay note, after whatever was
    still queued, and the queue is left empty. *)
Theorem enqueue_while_open (t : jsstring) (st : bridge) (i : nat) :
  ws st = Some i ->
  socket_state i st = Some OPEN ->
  never_throws (send_script st) ->
  exists st',
    sendToChatroom t st = Normal st'
    /\ msgQueue st' = []
    /\ wire st' = wire st ++ frames i (clock st) (msgQueue st) ++ [(i, t)].
Proof.
  intros Hws Hi Hscript. unfold sendToChatroom. set (st1 := set_msgQueue _ st).
  assert (Hopen : is_open st1 = true) by (apply is_open_spec; now exists i).
  rewrite Hopen. unfold flushMsgQueue. rewrite Hopen. cbn [negb].
  pose proof (flush_loop_spec (msgQueue st1) st1 i Hws Hi eq_refl) as Hloop.
  destruct (flush_loop (msgQueue st1) st1) as [st2|st2].
  - eexists. split; [reflexivity|].
    destruct (resetIdleTimer_queue st2) as (-> & -> & _). subst st2. cbn.
    split; [reflexivity|].
    unfold frames. rewrite map_app. cbn. unfold finalText. cbn.
    now rewrite Z.sub_diag.
  - destruct Hloop as (sent & failed & rest & _ & Hf & _).
    unfold never_throws in Hscript. rewrite Forall_lookup in Hscript.
    now specialize (Hscript _ _ Hf).
Qed.

Lemma enqueue_while_open_witness :
  let st := state_of (run [WsOpen 0; Tick 9000] (started [] [])) in
  exists st',
    sendToChatroom (u "hi") st = Normal st'
    /\ msgQueue st' = []
    /\ wire st' = wire st ++ frames 0 (clock st) (msgQueue st) ++ [(0%nat, u "hi")].
Proof.
  apply (enqueue_while_open (u "hi") _ 0).
  - reflexivity.
  - reflexivity.
  - constructor.
Defined.

(* ===================================================================== *)
(** ** The relay and the remote console *)
(* ===================================================================== *)


(** With no shared secret configured, or an empty one, the token check is
    off: the answer never is 401 and does not depend on the Authorization
    header at all. *)
Theorem no_secret_no_check (cfg : config) (w : relay_world) (req : request)
    (auth : option jsstring) :
  truthy_str (BRIDGE_TOKEN cfg) = false ->
  status (fst (httpServer cfg w req)) <> 401
  /\ httpServer cfg w
       {| method := method req; url := url req; authorization := auth;
          body := body req |}
     = httpServer cfg w req.
Proof.
  intros Hoff. unfold httpServer. cbn [method url authorization body].
  rewrite Hoff. cbn [andb]. split; [|reflexivity].
  destruct (jsstring_eqb (method req) (u "POST") && jsstring_eqb (url req) (u "/"));
    [|discriminate].
  destruct (JSON_parse_body w) as [data|]; [|discriminate].
  destruct (get data (u "command")) as [| |c]; try discriminate.
  destruct (truthy c); discriminate.
Qed.

Lemma no_secret_no_check_witness :
  status (fst (httpServer {| BRIDGE_TOKEN := Some []; RCON_PASSWORD := Some (u "pw") |}
                 console_up (post_command None))) <> 401
  /\ httpServer {| BRIDGE_TOKEN := Some []; RCON_PASSWORD := Some (u "pw") |}
       console_up
       {| method := method (post_command None); url := url (post_command None);
          authorization := Some (u "Bearer guess");
          body := body (post_command None) |}
     = httpServer {| BRIDGE_TOKEN := Some []; RCON_PASSWORD := Some (u "pw") |}
         console_up (post_command None).
Proof.
  apply (no_secret_no_check
           {| BRIDGE_TOKEN := Some []; RCON_PASSWORD := Some (u "pw") |}
           console_up (post_command None) (Some (u "Bearer guess"))).
  reflexivity.
Defined.

(* ===================================================================== *)
(** ** Reading the credential *)
(* ===================================================================== *)

Lemma split_on_whole (sep : N) (s : jsstring) :
  free_of sep s = true -> split_on sep s = [s].
Proof.
  induction s as [|a s IH]; [reflexivity|]. cbn [free_of forallb split_on].
  intros H. apply andb_true_iff in H as [Ha Hs].
  apply negb_true_iff in Ha. rewrite Ha. now rewrite (IH Hs).
Qed.

Lemma split_on_first (sep : N) (a b : jsstring) :
  free_of sep a = true -> split_on sep (a ++ sep :: b) = a :: split_on sep b.
Proof.
  induction a as [|x a IH]; cbn [free_of forallb split_on app].
  - intros _. now rewrite N.eqb_refl.
  - intros H. apply andb_true_iff in H as [Hx Ha].
    apply negb_true_iff in Hx. rewrite Hx. now rewrite (IH Ha).
Qed.

(** [parseJwt] looks at the second dot-separated segment of the token and at
    nothing else: whatever the header and whatever follows the payload (the
    signature is not read), the result is the decoding of the payload
    segment with [-] turned into [+] and [_] into [/]; a token without a dot
    gives [null] without any decoding. *)
Theorem parseJwt_reads_the_middle_segment (w : renewal_world)
    (header payload rest : jsstring) :
  free_of 46 header = true ->
  free_of 46 payload = true ->
  parseJwt w (header ++ u "." ++ payload ++ u "." ++ rest)
  = decode_claims w (from_base64url payload)
  /\ parseJwt w (header ++ u "." ++ payload)
     = decode_claims w (from_base64url payload)
  /\ parseJwt w header = None
  /\ free_of 45 (from_base64url payload) = true
  /\ free_of 95 (from_base64url payload) = true
  /\ length (from_base64url payload) = length payload.
Proof.
  intros Hh Hp. unfold parseJwt.
  change (u ".") with [46%N]. cbn [app].
  rewrite !(split_on_first 46 header _ Hh), (split_on_first 46 payload rest Hp).
  rewrite (split_on_whole 46 payload Hp), (split_on_whole 46 header Hh).
  repeat split.
  - unfold free_of, from_base64url. rewrite forallb_forall.
    intros x Hx. apply in_map_iff in Hx as (a & <- & _).
    destruct (N.eqb_spec a 45) as [->|]; [reflexivity|].
    destruct (N.eqb_spec a 95) as [->|]; [reflexivity|].
    apply negb_true_iff. now apply N.eqb_neq.
  - unfold free_of, from_base64url. rewrite forallb_forall.
    intros x Hx. apply in_map_iff in Hx as (a & <- & _).
    destruct (N.eqb_spec a 45) as [->|]; [reflexivity|].
    destruct (N.eqb_spec a 95) as [->|]; [reflexivity|].
    apply negb_true_iff. now apply N.eqb_neq.
  - apply length_map.
Qed.

Lemma parseJwt_reads_the_middle_segment_witness :
  parseJwt (quiet_world 0) (u "h" ++ u "." ++ u "eyJleHAiOjB9" ++ u "." ++ u "forged")
  = decode_claims (quiet_world 0) (from_base64url (u "eyJleHAiOjB9")).
Proof.
  apply (parseJwt_reads_the_middle_segment (quiet_world 0) (u "h")
           (u "eyJleHAiOjB9") (u "forged")); reflexivity.
Defined.

Lemma js_match_needs_literal (l : jsstring) (r : regex) (s : jsstring)
    (m : match_result) :
  js_match (Seq (Lit l) r) s = Some m -> includes l s = true.
Proof.
  unfold js_match. intros H.
  apply exec_from_suffix in H as (a & s0 & y & -> & H).
  cbn [rmatch] in H.
  destruct (strip_prefix l s0) as [b|] eqn:Hl; [|discriminate].
  apply strip_prefix_Some in Hl. subst s0. apply includes_app.
Qed.

(** The token [renewCookieIfNeeded] reads from the cookie: the value of
    [session=] up to the next [;] when the cookie starts with it, and the
    whole cookie when [session=] occurs nowhere in it. *)
Theorem sessionToken_of_cookie (tok rest cookie : jsstring) :
  (tok <> [] -> free_of 59 tok = true ->
   (rest = [] \/ exists rest', rest = 59%N :: rest') ->
   sessionToken (u "session=" ++ tok ++ rest) = tok)
  /\ (includes (u "session=") cookie = false -> sessionToken cookie = cookie).
Proof.
  split.
  - intros Hne Htok Hrest.
    assert (Hcls : forallb (not_char ";") tok = true).
    { unfold free_of in Htok. rewrite forallb_forall in *.
      intros x Hx. specialize (Htok x Hx). unfold not_char.
      change (u ";") with [59%N]. cbn. now rewrite orb_false_r. }
    unfold sessionToken, js_match.
    rewrite (exec_from_here sessionRe [] _ rest [(1%nat, tok)]); [reflexivity|].
    unfold sessionRe, L. seq_step. rewrite rmatch_lit. grp_step.
    apply rmatch_plus_greedy; [assumption..|].
    destruct Hrest as [->|(rest' & ->)].
    + cbn [star_k]. now rewrite firstn_app_minus.
    + rewrite star_k_stop by reflexivity. now rewrite firstn_app_minus.
  - intros Hno. unfold sessionToken.
    destruct (js_match sessionRe cookie) as [m|] eqn:Hm; [|reflexivity].
    apply js_match_needs_literal in Hm. congruence.
Qed.

Lemma sessionToken_of_cookie_witness :
  sessionToken (u "session=" ++ u "a.b.c" ++ u "; Path=/") = u "a.b.c"
  /\ sessionToken (u "a.b.c") = u "a.b.c".
Proof.
  destruct (sessionToken_of_cookie (u "a.b.c") (u "; Path=/") (u "a.b.c")) as [H1 H2].
  split.
  - apply H1; [discriminate | reflexivity | right; eexists; reflexivity].
  - apply H2. reflexivity.
Defined.

(* ===================================================================== *)
(** ** The renewal exchange *)
(* ===================================================================== *)

Lemma split_on_hd (sep : N) (s : jsstring) :
  exists rest,
    s = hd [] (split_on sep s) ++ rest
    /\ free_of sep (hd [] (split_on sep s)) = true
    /\ (rest = [] \/ exists r, rest = sep :: r).
Proof.
  induction s as [|a s IH]; [exists []; now repeat split; auto|].
  cbn [split_on]. destruct (N.eqb_spec a sep) as [->|Hne].
  - exists (sep :: s). cbn. repeat split. right. now exists s.
  - destruct IH as (rest & Hs & Hfree & Hrest).
    assert (Ha : negb (a =? sep)%N = true)
      by (apply negb_true_iff; now apply N.eqb_neq).
    unfold free_of in *.
    destruct (split_on sep s) as [|w ws]; cbn [hd] in *.
    + exists rest. cbn [forallb]. rewrite Ha. cbn in Hs. now subst s.
    + exists rest. cbn [forallb]. rewrite Ha, Hfree. now rewrite Hs at 1.
Qed.

(** The requests of one renewal: always the token issuance under the
    current cookie, first; after it at most one more, the login, made only
    with a truthy token taken from an OK token response that reports
    success. Never a third request, never a login without such a token. *)
Theorem renewal_requests (w : renewal_world) (st : renew_state) :
  api_calls (performRenewal w st) = api_calls st ++ [PostTokens (cfg_COOKIE st)]
  \/ exists r data tok,
      fetch_tokens w = Some r /\ tok_ok r = true /\ tok_json r = Some data
      /\ truthy_result (get data (u "success")) = true
      /\ get data (u "token") = Found tok /\ truthy tok = true
      /\ api_calls (performRenewal w st)
         = api_calls st ++ [PostTokens (cfg_COOKIE st); PostLogin tok].
Proof.
  unfold performRenewal.
  destruct (fetch_tokens w) as [r|] eqn:Hr; [|now left].
  destruct (tok_ok r) eqn:Hok; cbn [negb]; [|now left].
  destruct (tok_json r) as [data|] eqn:Hj; [|now left].
  destruct (get data (u "success")) as [| |s] eqn:Hs;
    destruct (get data (u "token")) as [| |tok] eqn:Ht; try (now left).
  destruct (truthy_result (Found s)) eqn:Hts; cbn [negb orb]; [|now left].
  destruct (truthy tok) eqn:Htt; cbn [negb]; [|now left].
  right. exists r, data, tok.
  split; [reflexivity|]. split; [exact Hok|]. split; [exact Hj|].
  split; [now rewrite Hs|]. split; [exact Ht|]. split; [exact Htt|].
  destruct (fetch_login w) as [l|]; [|cbn; now rewrite <- app_assoc].
  destruct (login_ok l); cbn [negb]; [|cbn; now rewrite <- app_assoc].
  destruct (login_set_cookie l) as [[|a h]|]; try (cbn; now rewrite <- app_assoc).
  rewrite (proj1 (update_env_calls w _ _)). cbn. now rewrite <- app_assoc.
Qed.

Lemma performRenewal_success (w : renewal_world) (st : renew_state) (tok : jsval)
    (h : jsstring) :
  exchange_succeeds w tok h ->
  performRenewal w st
  = update_env w (hd [] (split_on 59 h))
      (set_COOKIE (hd [] (split_on 59 h))
         (call (PostLogin tok) (call (PostTokens (cfg_COOKIE st)) st))).
Proof.
  intros (r & data & l & Hr & Hok & Hj & Hs & Ht & Htt & Hl & Hlok & Hc & Hne).
  unfold performRenewal. rewrite Hr, Hok, Hj, Ht. cbn [negb].
  destruct (get data (u "success")) as [| |s]; try discriminate Hs.
  rewrite Hs, Htt, Hl, Hlok, Hc. cbn [negb orb].
  destruct h; [congruence | reflexivity].
Qed.

(** When both steps of the exchange succeed, [CONFIG.COOKIE] becomes the
    Set-Cookie header up to its first [;] (the whole header when it has
    none), exactly two requests were made, the login carrying the token the
    first one returned, and when there is no [.env] file only the value in
    memory changes. *)
Theorem successful_exchange (w : renewal_world) (st : renew_state) (tok : jsval)
    (h : jsstring) :
  exchange_succeeds w tok h ->
  let st' := performRenewal w st in
  let new := cfg_COOKIE st' in
  free_of 59 new = true
  /\ (exists rest, h = new ++ rest /\ (rest = [] \/ exists r, rest = 59%N :: r))
  /\ api_calls st' = api_calls st ++ [PostTokens (cfg_COOKIE st); PostLogin tok]
  /\ (env_file st = None ->
      env_file st' = None /\ console st' = console st ++ [LogEnvMissing]).
Proof.
  intros Hok. cbv zeta. rewrite (performRenewal_success w st tok h Hok).
  destruct (update_env_calls w (hd [] (split_on 59 h))
              (set_COOKIE (hd [] (split_on 59 h))
                 (call (PostLogin tok) (call (PostTokens (cfg_COOKIE st)) st))))
    as [-> ->].
  cbn [cfg_COOKIE set_COOKIE api_calls call].
  destruct (split_on_hd 59 h) as (rest & Hh & Hfree & Hrest).
  split; [exact Hfree|]. split; [now exists rest|].
  split; [now rewrite <- app_assoc|].
  intros Hnone. unfold update_env. cbn [env_file set_COOKIE call].
  rewrite Hnone. now split.
Qed.

Lemma successful_exchange_witness :
  let w := renewing_world (u "session=new.tok.en; Max-Age=2592000; Path=/") true in
  let st := with_cookie (u "session=h.eyJleHAiOjB9.s") in
  cfg_COOKIE (performRenewal w st) = u "session=new.tok.en"
  /\ api_calls (performRenewal w st)
     = [PostTokens (u "session=h.eyJleHAiOjB9.s"); PostLogin (JStr (u "at-1"))].
Proof.
  destruct (successful_exchange
              (renewing_world (u "session=new.tok.en; Max-Age=2592000; Path=/") true)
              (with_cookie (u "session=h.eyJleHAiOjB9.s"))
              (JStr (u "at-1")) (u "session=new.tok.en; Max-Age=2592000; Path=/"))
    as (_ & _ & H & _).
  - do 3 eexists. repeat split; try reflexivity. discriminate.
  - split; [vm_compute; reflexivity | exact H].
Defined.

(** The new cookie is kept in memory when it cannot be persisted: if the
    [.env] file exists and reading or writing it fails, the file is left as
    it was, the failure is reported, and [CONFIG.COOKIE] holds the new
    value all the same. *)
Theorem persistence_failure_keeps_new_cookie (w : renewal_world)
    (st : renew_state) (tok : jsval) (h content : jsstring) :
  exchange_succeeds w tok h ->
  env_file st = Some content ->
  fs_read_ok w && fs_write_ok w = false ->
  let st' := performRenewal w st in
  cfg_COOKIE st' = hd [] (split_on 59 h)
  /\ env_file st' = Some content
  /\ console st' = console st ++ [LogRenewFailed OtherError].
Proof.
  intros Hok Henv Hfs. cbv zeta. rewrite (performRenewal_success w st tok h Hok).
  unfold update_env. cbn [env_file set_COOKIE call]. rewrite Henv.
  destruct (fs_read_ok w); cbn [negb andb] in *; [|now repeat split].
  rewrite Hfs. cbn [negb]. now repeat split.
Qed.

Lemma persistence_failure_keeps_new_cookie_witness :
  let w := renewing_world (u "session=new.tok.en; Path=/") false in
  let st := with_cookie (u "session=old") in
  cfg_COOKIE (performRenewal w st) = hd [] (split_on 59 (u "session=new.tok.en; Path=/"))
  /\ env_file (performRenewal w st) = Some (u "COOKIE=" ++ u "session=old")
  /\ console (performRenewal w st) = console st ++ [LogRenewFailed OtherError].
Proof.
  apply (persistence_failure_keeps_new_cookie
           (renewing_world (u "session=new.tok.en; Path=/") false)
           (with_cookie (u "session=old")) (JStr (u "at-1"))
           (u "session=new.tok.en; Path=/")).
  - do 3 eexists. repeat split; try reflexivity. discriminate.
  - reflexivity.
  - reflexivity.
Defined.

(* ===================================================================== *)
(** ** Persisting the cookie *)
(* ===================================================================== *)

Lemma exec_from_skip (r : regex) (before s pre : jsstring) :
  (forall a b, before = a ++ b -> b <> [] ->
     rmatch r (b ++ s) [] (fun s' c => Some (s', c)) = None) ->
  exec_from r pre (before ++ s) = exec_from r (rev before ++ pre) s.
Proof.
  revert pre. induction before as [|x before IH]; intros pre H; [reflexivity|].
  assert (H0 := H [] (x :: before) eq_refl ltac:(discriminate)).
  cbn [app exec_from] in *. rewrite H0.
  rewrite IH.
  - cbn [rev]. now rewrite <- app_assoc.
  - intros a b -> Hb. now apply (H (x :: a) b).
Qed.

Lemma expand_plain (r : jsstring) (m : match_result) :
  free_of 36 r = true -> expand r m = r.
Proof.
  induction r as [|a r IH]; [reflexivity|].
  unfold free_of. cbn [forallb expand]. intros H.
  apply andb_true_iff in H as [Ha Hr].
  apply negb_true_iff in Ha. rewrite Ha. now rewrite (IH Hr).
Qed.

Lemma expand_app_plain (p r : jsstring) (m : match_result) :
  free_of 36 p = true -> expand (p ++ r) m = p ++ expand r m.
Proof.
  induction p as [|a p IH]; [reflexivity|].
  unfold free_of. cbn [forallb app expand]. intros H.
  apply andb_true_iff in H as [Ha Hp].
  apply negb_true_iff in Ha. rewrite Ha. now rewrite (IH Hp).
Qed.

(** [COOKIE=] does not overlap itself: an occurrence that starts in a
    non-empty text put in front of another occurrence lies inside that
    text. *)
Lemma cookie_key_no_overlap (b r x : jsstring) :
  b <> [] ->
  strip_prefix (u "COOKIE=") (b ++ u "COOKIE=" ++ r) = Some x ->
  exists y, b = u "COOKIE=" ++ y.
Proof.
  change (u "COOKIE=") with [67; 79; 79; 75; 73; 69; 61]%N.
  intros Hb H.
  destruct b as [|c1 b]; [congruence|].
  cbn [app strip_prefix] in H.
  destruct (N.eqb_spec 67 c1) as [<-|]; [|discriminate].
  do 6 (destruct b as [|? b]; [discriminate H|];
        cbn [app strip_prefix] in H;
        match type of H with
        | (if (?a =? ?c)%N then _ else _) = _ =>
            destruct (N.eqb_spec a c) as [<-|]; [|discriminate]
        end).
  now exists b.
Qed.

Lemma includes_suffix (n a b : jsstring) :
  includes n (a ++ b) = false -> includes n b = false.
Proof.
  induction a as [|x a IH]; [easy|].
  cbn [app includes].
  destruct (strip_prefix n (x :: a ++ b)); [discriminate | exact IH].
Qed.

Lemma includes_prefix (n y : jsstring) : includes n (n ++ y) = true.
Proof. exact (includes_app n [] y). Qed.

Lemma cookie_line_match (before old after : jsstring) :
  includes (u "COOKIE=") before = false ->
  forallb dot old = true ->
  (after = [] \/ exists t r, after = t :: r /\ is_line_terminator t = true) ->
  js_match cookieLineRe (before ++ u "COOKIE=" ++ old ++ after)
  = Some {| m_before := before; m_text := u "COOKIE=" ++ old;
            m_after := after; m_caps := [] |}.
Proof.
  intros Hbefore Hold Hafter. unfold js_match.
  rewrite exec_from_skip.
  - rewrite app_nil_r.
    rewrite (exec_from_here _ _ _ after []).
    + rewrite rev_involutive. f_equal. f_equal.
      rewrite (app_assoc (u "COOKIE=") old after).
      apply firstn_app_minus.
    + unfold cookieLineRe, L. cbn [rmatch]. rewrite strip_prefix_app.
      apply star_k_greedy; [exact Hold|].
      destruct Hafter as [->|(t & r & -> & Ht)]; [reflexivity|].
      rewrite star_k_stop; [reflexivity|].
      unfold dot. now rewrite Ht.
  - intros a b -> Hb. unfold cookieLineRe, L. cbn [rmatch].
    destruct (strip_prefix (u "COOKIE=") (b ++ u "COOKIE=" ++ old ++ after))
      as [x|] eqn:Hx; [|reflexivity].
    destruct (cookie_key_no_overlap _ _ _ Hb Hx) as [y ->].
    apply includes_suffix in Hbefore.
    now rewrite includes_prefix in Hbefore.
Qed.

(** Persisting a new cookie rewrites the first occurrence of [COOKIE=] in
    the [.env] file up to the end of its line and nothing else: the text
    before it and the lines after it are kept as they are. The new cookie
    is taken literally provided it holds no [$], the character that
    [String.prototype.replace] treats as the start of a substitution
    pattern. *)
Theorem env_cookie_line_replaced (w : renewal_world) (st : renew_state)
    (new before old after : jsstring) :
  env_file st = Some (before ++ u "COOKIE=" ++ old ++ after) ->
  fs_read_ok w = true ->
  fs_write_ok w = true ->
  includes (u "COOKIE=") before = false ->
  forallb dot old = true ->
  (after = [] \/ exists t r, after = t :: r /\ is_line_terminator t = true) ->
  free_of 36 new = true ->
  env_file (update_env w new st) = Some (before ++ u "COOKIE=" ++ new ++ after)
  /\ console (update_env w new st) = console st ++ [LogEnvUpdated].
Proof.
  intros Henv Hr Hw Hbefore Hold Hafter Hnew.
  unfold update_env. rewrite Henv, Hr, Hw. cbn [negb].
  rewrite includes_app. unfold replace_first.
  rewrite (cookie_line_match before old after Hbefore Hold Hafter).
  cbn [m_before m_after env_file console log set_env_file].
  rewrite expand_plain.
  - split; [|reflexivity]. now rewrite <- app_assoc.
  - unfold free_of. rewrite forallb_app. apply andb_true_iff.
    split; [reflexivity | exact Hnew].
Qed.

Lemma env_cookie_line_replaced_witness :
  env_file (update_env writable_world (u "session=new")
              (with_env (u "MY_TOKEN=t
" ++ u "COOKIE=" ++ u "session=old" ++ u "
RCON_PORT=25575")))
  = Some (u "MY_TOKEN=t
" ++ u "COOKIE=" ++ u "session=new" ++ u "
RCON_PORT=25575")
  /\ console (update_env writable_world (u "session=new")
              (with_env (u "MY_TOKEN=t
" ++ u "COOKIE=" ++ u "session=old" ++ u "
RCON_PORT=25575")))
     = console (with_env (u "MY_TOKEN=t
" ++ u "COOKIE=" ++ u "session=old" ++ u "
RCON_PORT=25575")) ++ [LogEnvUpdated].
Proof.
  apply (env_cookie_line_replaced writable_world _ (u "session=new")
           (u "MY_TOKEN=t
") (u "session=old") (u "
RCON_PORT=25575")); try reflexivity.
  right. exists 10%N, (u "RCON_PORT=25575"). split; reflexivity.
Defined.

(** A replacement pattern in the new cookie is expanded, not stored: where
    the cookie holds [$&], the file gets the old [COOKIE=] line in its
    place, so the file no longer holds the cookie that is in memory. *)
Theorem dollar_in_cookie_is_expanded (w : renewal_world) (st : renew_state)
    (p q before old after : jsstring) :
  env_file st = Some (before ++ u "COOKIE=" ++ old ++ after) ->
  fs_read_ok w = true ->
  fs_write_ok w = true ->
  includes (u "COOKIE=") before = false ->
  forallb dot old = true ->
  (after = [] \/ exists t r, after = t :: r /\ is_line_terminator t = true) ->
  free_of 36 p = true ->
  free_of 36 q = true ->
  env_file (update_env w (p ++ u "$&" ++ q) st)
  = Some (before ++ u "COOKIE=" ++ p ++ (u "COOKIE=" ++ old) ++ q ++ after).
Proof.
  intros Henv Hr Hw Hbefore Hold Hafter Hp Hq.
  unfold update_env. rewrite Henv, Hr, Hw. cbn [negb].
  rewrite includes_app. unfold replace_first.
  rewrite (cookie_line_match before old after Hbefore Hold Hafter).
  cbn [m_before m_after env_file console log set_env_file].
  rewrite (app_assoc (u "COOKIE=") p), expand_app_plain.
  - change (u "$&") with [36; 38]%N. cbn [app expand N.eqb Pos.eqb m_text].
    rewrite (expand_plain q _ Hq). now rewrite <- !app_assoc.
  - unfold free_of. rewrite forallb_app. apply andb_true_iff.
    split; [reflexivity | exact Hp].
Qed.

Lemma dollar_in_cookie_is_expanded_witness :
  env_file (update_env writable_world (u "a" ++ u "$&" ++ u "b")
              (with_env ([] ++ u "COOKIE=" ++ u "old" ++ [])))
  = Some ([] ++ u "COOKIE=" ++ u "a" ++ (u "COOKIE=" ++ u "old") ++ u "b" ++ []).
Proof.
  apply (dollar_in_cookie_is_expanded writable_world _ (u "a") (u "b") []
           (u "old") []); try reflexivity.
  now left.
Defined.


(* ===================================================================== *)
(** ** The batch converter: timestamps *)
(* ===================================================================== *)

Lemma offset_next (k : nat) :
  (1 <= k)%nat ->
  (if offset_of k <? 900 then offset_of k + 100 else offset_of k + 1)
  = offset_of (S k).
Proof.
  intros Hk. unfold offset_of.
  destruct (Nat.leb_spec k 9), (Nat.leb_spec (S k) 9);
    match goal with |- context [?a <? ?b] => destruct (Z.ltb_spec a b) end; lia.
Qed.



Lemma stamps_run (b : Z) (n : nat) :
  forall (k : nat) (st : stamper),
    (1 <= k)%nat -> lastBaseTime st = b -> currentOffset st = offset_of k ->
    stamps_of (repeat (Some b) n) st
    = map (fun j => b + offset_of j) (seq (S k) n)
    /\ stamper_after (repeat (Some b) n) st
       = {| lastBaseTime := b; currentOffset := offset_of (k + n) |}.
Proof.
  induction n as [|n IH]; intros k [lb off] Hk Hb Hoff; cbn in Hb, Hoff; subst.
  - split; [reflexivity|]. cbn. now rewrite Nat.add_0_r.
  - cbn [repeat stamps_of stamper_after stamp seq map lastBaseTime currentOffset].
    rewrite Z.eqb_refl, (offset_next k Hk). cbn [fst snd].
    destruct (IH (S k) {| lastBaseTime := b; currentOffset := offset_of (S k) |})
      as [-> ->]; [lia | reflexivity | reflexivity |].
    split; [reflexivity|]. now rewrite Nat.add_succ_r.
Qed.

Lemma stamps_fresh_run (b : Z) (n : nat) (st : stamper) :
  lastBaseTime st <> b ->
  stamps_of (repeat (Some b) n) st = map (fun j => b + offset_of j) (seq 1 n)
  /\ lastBaseTime (stamper_after (repeat (Some b) n) st)
     = (if n is O then lastBaseTime st else b).
Proof.
  intros Hne. destruct n as [|n]; [now split|].
  cbn [repeat stamps_of stamper_after stamp seq map].
  destruct (Z.eqb_spec b (lastBaseTime st)) as [->|_]; [congruence|].
  cbn [fst snd].
  destruct (stamps_run b n 1 {| lastBaseTime := b; currentOffset := 100 |})
    as [-> ->]; [lia | reflexivity | reflexivity |].
  now split.
Qed.

Lemma stamps_of_app (l1 l2 : list (option Z)) (st : stamper) :
  stamps_of (l1 ++ l2) st
  = stamps_of l1 st ++ stamps_of l2 (stamper_after l1 st).
Proof.
  revert st. induction l1 as [|b l1 IH]; intros st; [reflexivity|].
  cbn [app stamps_of stamper_after]. now rewrite IH.
Qed.




(** Within one second the converter numbers its lines 100, 200, ..., 900
    and then 901, 902, ...: the [k]-th line of a second that starts at
    [b] is stamped [b + offset_of k], whatever the module variables held
    before, as long as the second is a new one. *)
Theorem stamps_of_one_second (st : stamper) (b : Z) (n : nat) :
  lastBaseTime st <> b ->
  stamps_of (repeat (Some b) n) st
  = map (fun k => b + offset_of k) (seq 1 n).
Proof.
  intros Hne. destruct n as [|n]; [reflexivity|].
  cbn [repeat stamps_of stamp seq map].
  destruct (Z.eqb_spec b (lastBaseTime st)) as [->|_]; [congruence|].
  cbn [fst snd].
  destruct (stamps_run b n 1 {| lastBaseTime := b; currentOffset := 100 |})
    as [-> _]; [lia | reflexivity | reflexivity |].
  reflexivity.
Qed.

Lemma stamps_of_one_second_witness :
  stamps_of (repeat (Some 1700000000000) 11) stamper_boot
  = map (fun k => 1700000000000 + offset_of k) (seq 1 11).
Proof. apply stamps_of_one_second. discriminate. Defined.



(** The bound of 208 lines is exact: the 209th line of a second gets the
    timestamp of the first line of the next second. *)
Theorem crowded_second_collides (st : stamper) (b : Z) :
  lastBaseTime st <> b ->
  stamps_of (repeat (Some b) 209 ++ [Some (b + 1000)]) st
  = map (fun k => b + offset_of k) (seq 1 208) ++ [b + 1100; b + 1100].
Proof.
  intros H. rewrite stamps_of_app.
  destruct (stamps_fresh_run b 209 st H) as [-> Hafter].
  change 209%nat with (208 + 1)%nat at 1.
  rewrite seq_app, map_app, <- app_assoc. f_equal.
  cbn [stamps_of stamp]. rewrite Hafter.
  destruct (Z.eqb_spec (b + 1000) b); [lia|].
  cbn [fst app seq map].
  change (offset_of (1 + 208)) with 1100.
  now replace (b + 1000 + 100) with (b + 1100) by lia.
Qed.

Lemma crowded_second_collides_witness :
  stamps_of (repeat (Some 1700000000000) 209 ++ [Some (1700000000000 + 1000)])
    stamper_boot
  = map (fun k => 1700000000000 + offset_of k) (seq 1 208)
    ++ [1700000000000 + 1100; 1700000000000 + 1100].
Proof. apply crowded_second_collides. discriminate. Defined.

(* ===================================================================== *)
(** ** The batch converter: lines *)
(* ===================================================================== *)

Lemma handleLine_emit (w : parser_world) (line dateStr : jsstring)
    (st : parser_state) (timeMatch : match_result) :
  match_at_start timeRe line = Some timeMatch ->
  handleLine w line dateStr st
  = if includes (u "/INFO]") line
    then match first_match PATTERNS line with
         | Some content => emit w dateStr (grp timeMatch 1) content st
         | None => st
         end
    else st.
Proof.
  intros Ht. unfold handleLine, emit. rewrite Ht.
  destruct (includes (u "/INFO]") line); cbn [negb]; [|reflexivity].
  destruct (first_match PATTERNS line); [|reflexivity].
  now destruct (generateTimestamp w dateStr (grp timeMatch 1) (stamps st)).
Qed.

Lemma time_prefix_match (h1 h2 m1 m2 s1 s2 : N) (rest : jsstring) :
  forallb is_digit [h1; h2; m1; m2; s1; s2] = true ->
  exists m,
    match_at_start timeRe (timed_line h1 h2 m1 m2 s1 s2 rest) = Some m
    /\ grp m 1 = clock_text h1 h2 m1 m2 s1 s2.
Proof.
  intros Hd. simpl in Hd.
  repeat (apply andb_true_iff in Hd as [? Hd]).
  assert (Hr : rmatch timeRe (timed_line h1 h2 m1 m2 s1 s2 rest) []
                 (fun s' c => Some (s', c))
               = Some (rest, [(1%nat, clock_text h1 h2 m1 m2 s1 s2)])).
  { unfold timeRe, timed_line. cbn [seqs]. unfold L at 1.
    seq_step. rewrite rmatch_lit. seq_step. grp_step.
    match goal with
    | |- rmatch _ _ _ ?k = _ => set (K := k)
    end.
    unfold Rep2, L. simpl.
    repeat match goal with H : is_digit _ = true |- _ => rewrite H; clear H end.
    subst K. cbv beta.
    change (rmatch (L "]") (u "]" ++ rest)
              [(1%nat,
                firstn (length (clock_text h1 h2 m1 m2 s1 s2 ++ u "]" ++ rest)
                        - length (u "]" ++ rest))
                  (clock_text h1 h2 m1 m2 s1 s2 ++ u "]" ++ rest))]
              (fun s' c => Some (s', c))
            = Some (rest, [(1%nat, clock_text h1 h2 m1 m2 s1 s2)])).
    rewrite firstn_app_minus. unfold L. now rewrite rmatch_lit. }
  unfold match_at_start. rewrite Hr. eexists. split; reflexivity.
Qed.

Lemma includes_false_app (n a b : jsstring) :
  includes n (a ++ n ++ b) = false -> False.
Proof. now rewrite includes_app. Qed.

(** A pattern that starts with the time and the chat-thread marker matches
    nowhere on a line without the marker. *)
Lemma chat_pattern_needs_thread (r2 : regex) (line : jsstring) :
  includes (u "[Async Chat Thread - #") line = false ->
  js_match (Seq re_time (Seq (L "[Async Chat Thread - #") r2)) line = None.
Proof.
  intros Hinc.
  destruct (js_match _ line) as [m|] eqn:Hm; [|reflexivity].
  unfold js_match in Hm.
  apply exec_from_suffix in Hm as (a & s0 & y & -> & Hm).
  apply rmatch_seq_lit_contains in Hm as (a' & b & ->).
  rewrite (app_assoc a a') in Hinc.
  now apply includes_false_app in Hinc.
Qed.

Lemma patterns_without_chat (line : jsstring) :
  includes (u "[Async Chat Thread - #") line = false ->
  first_match PATTERNS line = first_match rules line.
Proof.
  intros Hinc. unfold PATTERNS, rules. cbn [first_match rule_re chat_rule].
  unfold parser_chatRe, chatRe. cbn [seqs].
  now rewrite !(chat_pattern_needs_thread _ line Hinc).
Qed.

(** The converter and the bridge agree outside the chat thread: a line
    that starts with its time [[HH:MM:SS]] and does not mention the chat
    thread is skipped by the converter exactly when the bridge relays
    nothing for it, and otherwise gives one [/insert] line that carries the
    text the bridge would relay, stamped from the file's date and the
    line's time. *)
Theorem converter_agrees_with_bridge (w : parser_world)
    (h1 h2 m1 m2 s1 s2 : N) (rest dateStr : jsstring) (st : parser_state) :
  forallb is_digit [h1; h2; m1; m2; s1; s2] = true ->
  includes (u "[Async Chat Thread - #") (timed_line h1 h2 m1 m2 s1 s2 rest) = false ->
  handleLine w (timed_line h1 h2 m1 m2 s1 s2 rest) dateStr st
  = match parse (timed_line h1 h2 m1 m2 s1 s2 rest) with
    | Some content => emit w dateStr (clock_text h1 h2 m1 m2 s1 s2) content st
    | None => st
    end.
Proof.
  intros Hd Hinc.
  destruct (time_prefix_match h1 h2 m1 m2 s1 s2 rest Hd) as (m & Hm & Hg).
  rewrite (handleLine_emit w _ dateStr st m Hm), Hg.
  rewrite (patterns_without_chat _ Hinc). unfold parse.
  now destruct (includes (u "/INFO]") _).
Qed.

Lemma converter_agrees_with_bridge_witness :
  outputLines
    (handleLine fixed_clock
       (timed_line 49 50 48 48 48 48 (u " [Server thread/INFO]: Steve left the game"))
       (u "2023-11-14") parser_boot)
  = [u "/insert 1700000000100 [INFO] Steve left the game"].
Proof.
  rewrite (converter_agrees_with_bridge fixed_clock 49 50 48 48 48 48
             (u " [Server thread/INFO]: Steve left the game")
             (u "2023-11-14") parser_boot eq_refl eq_refl).
  vm_compute. reflexivity.
Defined.

Lemma chat_thread_line_timed (h1 h2 m1 m2 s1 s2 : N) (n payload : jsstring) :
  chat_thread_line h1 h2 m1 m2 s1 s2 n payload
  = timed_line h1 h2 m1 m2 s1 s2
      (u " [Async Chat Thread - #" ++ n ++ u "/INFO]: " ++ payload).
Proof. reflexivity. Qed.

Lemma chat_thread_line_marker (h1 h2 m1 m2 s1 s2 : N) (n payload : jsstring) :
  includes (u "/INFO]") (chat_thread_line h1 h2 m1 m2 s1 s2 n payload) = true.
Proof.
  assert (E : chat_thread_line h1 h2 m1 m2 s1 s2 n payload
              = (u "[" ++ [h1; h2] ++ u ":" ++ [m1; m2] ++ u ":" ++ [s1; s2]
                 ++ u "] " ++ u "[Async Chat Thread - #" ++ n)
                ++ u "/INFO]" ++ u ": " ++ payload).
  { unfold chat_thread_line. now rewrite <- !app_assoc. }
  rewrite E. apply includes_app.
Qed.

Lemma parser_chat_match (h1 h2 m1 m2 s1 s2 : N) (n pre player msg : jsstring) :
  forallb is_digit [h1; h2; m1; m2; s1; s2] = true ->
  n <> [] -> forallb is_digit n = true ->
  pre <> [] -> forallb (not_char "]") pre = true ->
  player <> [] -> forallb (not_char ">") player = true ->
  msg <> [] -> forallb dot msg = true ->
  exists m,
    js_match parser_chatRe
      (chat_thread_line h1 h2 m1 m2 s1 s2 n
         (pre ++ u "] " ++ u "<" ++ player ++ u "> " ++ msg))
    = Some m
    /\ grp m 1 = player /\ grp m 2 = msg.
Proof.
  intros Hd Hn Hnd Hpre Hprec Hp Hpc Hm Hmd.
  eexists. split; [|split].
  - unfold js_match.
    apply (exec_from_here parser_chatRe [] _ [] [(2%nat, msg); (1%nat, player)]).
    unfold chat_thread_line, parser_chatRe. cbn [seqs].
    seq_step. rewrite (rmatch_re_time _ _ _ _ _ _ _ _ _ Hd).
    seq_step. unfold L at 1. rewrite rmatch_lit.
    seq_step. apply rmatch_plus_greedy; [assumption..|].
    rewrite (star_k_stop_at _ (u "/INFO]: ") _ 47 (u "INFO]: ")) by reflexivity.
    seq_step. unfold L at 1. rewrite rmatch_lit.
    seq_step. apply rmatch_opt_taken.
    seq_step. apply rmatch_plus_greedy; [assumption..|].
    rewrite (star_k_stop_at _ (u "] ") _ 93 (u " ")) by reflexivity.
    unfold L at 1. rewrite rmatch_lit.
    change (Seq (L "<") (Seq (Grp 1 (Plus (not_char ">")))
                          (Seq (L "> ") (Grp 2 (Plus dot)))))
      with (seqs [L "<"; Grp 1 (Plus (not_char ">")); L "> "; Grp 2 (Plus dot)]).
    now apply rmatch_chat_tail.
  - reflexivity.
  - reflexivity.
Qed.

(** The converter's chat pattern takes any text that ends in [] ] as the
    prefix before [<player>], with or without an opening bracket: the line
    gives [[CHAT] <player> msg], stamped with the line's time. *)
Theorem converter_chat_prefix (w : parser_world) (h1 h2 m1 m2 s1 s2 : N)
    (n pre player msg dateStr : jsstring) (st : parser_state) :
  forallb is_digit [h1; h2; m1; m2; s1; s2] = true ->
  n <> [] -> forallb is_digit n = true ->
  pre <> [] -> forallb (not_char "]") pre = true ->
  player <> [] -> forallb (not_char ">") player = true ->
  msg <> [] -> forallb dot msg = true ->
  handleLine w
    (chat_thread_line h1 h2 m1 m2 s1 s2 n
       (pre ++ u "] " ++ u "<" ++ player ++ u "> " ++ msg)) dateStr st
  = emit w dateStr (clock_text h1 h2 m1 m2 s1 s2)
      (u "[CHAT] <" ++ player ++ u "> " ++ msg) st.
Proof.
  intros Hd Hn Hnd Hpre Hprec Hp Hpc Hm Hmd.
  destruct (parser_chat_match h1 h2 m1 m2 s1 s2 n pre player msg)
    as (m & Hmatch & Hg1 & Hg2); try assumption.
  destruct (time_prefix_match h1 h2 m1 m2 s1 s2
              (u " [Async Chat Thread - #" ++ n ++ u "/INFO]: "
               ++ pre ++ u "] " ++ u "<" ++ player ++ u "> " ++ msg) Hd)
    as (tm & Htm & Hgt).
  rewrite <- chat_thread_line_timed in Htm.
  rewrite (handleLine_emit w _ dateStr st tm Htm), Hgt.
  rewrite chat_thread_line_marker.
  unfold PATTERNS. cbn [first_match rule_re]. rewrite Hmatch.
  cbn [rule_fmt]. now rewrite Hg1, Hg2.
Qed.

Lemma converter_chat_prefix_witness :
  outputLines
    (handleLine fixed_clock
       (chat_thread_line 49 50 48 48 48 48 (u "7")
          (u "Guild" ++ u "] " ++ u "<" ++ u "Steve" ++ u "> " ++ u "hi"))
       (u "2023-11-14") parser_boot)
  = [u "/insert 1700000000100 [CHAT] <Steve> hi"].
Proof.
  rewrite (converter_chat_prefix fixed_clock 49 50 48 48 48 48 (u "7")
             (u "Guild") (u "Steve") (u "hi") (u "2023-11-14") parser_boot);
    try reflexivity; discriminate.
Defined.

Section TimeAnchor.

Context {R : Type}.

(** Every pattern of the bridge starts with the time, so it can only match
    where a [[] stands, followed by a digit. *)
Lemma time_needs_bracket (r2 : regex) (a : N) (s : jsstring) (c : caps)
    (k : jsstring -> caps -> option R) :
  (a =? 91)%N = false -> rmatch (Seq re_time r2) (a :: s) c k = None.
Proof.
  intros H. unfold re_time, L. cbn [seqs]. change (u "[") with [91%N].
  cbn [rmatch strip_prefix]. now rewrite (N.eqb_sym 91 a), H.
Qed.

Lemma time_needs_digit (r2 : regex) (d : N) (s : jsstring) (c : caps)
    (k : jsstring -> caps -> option R) :
  is_digit d = false -> rmatch (Seq re_time r2) (91%N :: d :: s) c k = None.
Proof.
  intros H. unfold re_time, L, Rep2. cbn [seqs]. change (u "[") with [91%N].
  cbn [rmatch strip_prefix]. rewrite N.eqb_refl. now rewrite H.
Qed.

Lemma star_k_none_upto (p : N -> bool) (xs : jsstring) (a : N) (s : jsstring)
    (k : jsstring -> option R) :
  forallb p xs = true -> p a = false ->
  (forall x1 x2, xs = x1 ++ x2 -> k (x2 ++ a :: s) = None) ->
  star_k p (xs ++ a :: s) k = None.
Proof.
  intros Hxs Ha. induction xs as [|x xs IH]; intros Hk.
  - cbn [app]. rewrite star_k_stop by exact Ha. exact (Hk [] [] eq_refl).
  - cbn [forallb] in Hxs. apply andb_true_iff in Hxs as [Hx Hxs].
    cbn [app star_k]. rewrite Hx.
    rewrite IH; [|exact Hxs|intros x1 x2 ->; exact (Hk (x :: x1) x2 eq_refl)].
    exact (Hk [] (x :: xs) eq_refl).
Qed.

End TimeAnchor.

Lemma digit_facts (d : N) :
  is_digit d = true ->
  (d =? 91)%N = false /\ (47 =? d)%N = false.
Proof.
  unfold is_digit. intros H. apply andb_true_iff in H as [H1 H2].
  apply N.leb_le in H1, H2. split; apply N.eqb_neq; lia.
Qed.

Lemma digits_no_bracket (n : jsstring) :
  forallb is_digit n = true -> free_of 91 n = true.
Proof.
  unfold free_of. induction n as [|d n IH]; [reflexivity|]. cbn [forallb].
  intros H. apply andb_true_iff in H as [Hd Hn].
  now rewrite (proj1 (digit_facts d Hd)), (IH Hn).
Qed.

Lemma exec_from_cons_none (r : regex) (pre : jsstring) (a : N) (s : jsstring) :
  rmatch r (a :: s) [] (fun s' c => Some (s', c)) = None ->
  exec_from r pre (a :: s) = exec_from r (a :: pre) s.
Proof. intros H. cbn [exec_from]. now rewrite H. Qed.

Lemma no_match_without_bracket (r2 : regex) (s pre : jsstring) :
  free_of 91 s = true -> exec_from (Seq re_time r2) pre s = None.
Proof.
  unfold free_of. revert pre. induction s as [|a s IH]; intros pre H.
  - reflexivity.
  - cbn [forallb] in H. apply andb_true_iff in H as [Ha Hs].
    apply negb_true_iff in Ha.
    rewrite exec_from_cons_none by now apply time_needs_bracket.
    now apply IH.
Qed.

Lemma exec_from_two_brackets (r2 : regex) (t1 : jsstring) (d : N)
    (t2 pre : jsstring) :
  free_of 91 t1 = true -> is_digit d = false -> free_of 91 (d :: t2) = true ->
  rmatch (Seq re_time r2) (91%N :: t1 ++ 91%N :: d :: t2) []
    (fun s' c => Some (s', c)) = None ->
  exec_from (Seq re_time r2) pre (91%N :: t1 ++ 91%N :: d :: t2) = None.
Proof.
  intros H1 Hd H2 H0. rewrite exec_from_cons_none by exact H0.
  generalize (91%N :: pre). clear H0 pre.
  unfold free_of in H1. induction t1 as [|a t1 IH]; intros pre.
  - cbn [app]. rewrite exec_from_cons_none by now apply time_needs_digit.
    now apply no_match_without_bracket.
  - cbn [forallb] in H1. apply andb_true_iff in H1 as [Ha H1].
    apply negb_true_iff in Ha.
    cbn [app]. rewrite exec_from_cons_none by now apply time_needs_bracket.
    now apply IH.
Qed.

Lemma server_rule_fails_on_chat_line (r2 : regex) (h1 h2 m1 m2 s1 s2 : N)
    (n payload : jsstring) :
  forallb is_digit [h1; h2; m1; m2; s1; s2] = true ->
  rmatch (Seq re_time (Seq re_server r2))
    (chat_thread_line h1 h2 m1 m2 s1 s2 n payload) []
    (fun s' c => Some (s', c)) = None.
Proof.
  intros Hd. unfold chat_thread_line.
  seq_step. rewrite (rmatch_re_time _ _ _ _ _ _ _ _ _ Hd).
  seq_step. unfold re_server, L. cbn [rmatch]. reflexivity.
Qed.

Lemma chat_rule_fails_unbracketed (h1 h2 m1 m2 s1 s2 : N) (n : jsstring)
    (a : N) (rest : jsstring) :
  forallb is_digit [h1; h2; m1; m2; s1; s2] = true ->
  forallb is_digit n = true ->
  (a =? 91)%N = false -> (a =? 60)%N = false ->
  rmatch chatRe (chat_thread_line h1 h2 m1 m2 s1 s2 n (a :: rest)) []
    (fun s' c => Some (s', c)) = None.
Proof.
  intros Hd Hn H91 H60. unfold chat_thread_line, chatRe. cbn [seqs].
  seq_step. rewrite (rmatch_re_time _ _ _ _ _ _ _ _ _ Hd).
  seq_step. unfold L at 1. rewrite rmatch_lit.
  seq_step. unfold Plus at 1. seq_step.
  destruct n as [|d n]; [reflexivity|].
  cbn [forallb] in Hn. apply andb_true_iff in Hn as [Hd0 Hn].
  cbn [app rmatch]. rewrite Hd0.
  change (u "/INFO]: " ++ a :: rest) with (47%N :: u "INFO]: " ++ a :: rest).
  apply star_k_none_upto; [exact Hn | reflexivity |].
  intros x1 x2 ->. destruct x2 as [|x x2].
  - change ([] ++ 47%N :: u "INFO]: " ++ a :: rest)
      with (u "/INFO]: " ++ a :: rest).
    unfold L at 1. cbn [rmatch]. rewrite strip_prefix_app.
    unfold L. change (u "[") with [91%N]. change (u "<") with [60%N].
    cbn [rmatch strip_prefix].
    now rewrite (N.eqb_sym 91 a), H91, (N.eqb_sym 60 a), H60.
  - rewrite forallb_app in Hn. apply andb_true_iff in Hn as [_ Hn].
    cbn [forallb] in Hn. apply andb_true_iff in Hn as [Hx _].
    unfold L at 1. change (u "/INFO]: ") with (47%N :: u "INFO]: ").
    cbn [app rmatch strip_prefix].
    now rewrite (proj2 (digit_facts x Hx)).
Qed.

Lemma unbracketed_chat_line_matches_nothing (h1 h2 m1 m2 s1 s2 : N)
    (n : jsstring) (a : N) (rest : jsstring) (r : rule) :
  forallb is_digit [h1; h2; m1; m2; s1; s2] = true ->
  forallb is_digit n = true ->
  (a =? 60)%N = false ->
  free_of 91 (a :: rest) = true ->
  In r rules ->
  js_match (rule_re r) (chat_thread_line h1 h2 m1 m2 s1 s2 n (a :: rest)) = None.
Proof.
  intros Hd Hn H60 Hfree Hr.
  assert (H91 : (a =? 91)%N = false).
  { unfold free_of in Hfree. cbn [forallb] in Hfree.
    apply andb_true_iff in Hfree as [Ha _]. now apply negb_true_iff in Ha. }
  assert (Hshape : chat_thread_line h1 h2 m1 m2 s1 s2 n (a :: rest)
                   = 91%N :: [h1; h2; 58; m1; m2; 58; s1; s2; 93; 32]%N
                     ++ 91%N :: 65%N
                        :: (u "sync Chat Thread - #" ++ n ++ u "/INFO]: "
                            ++ a :: rest)) by reflexivity.
  assert (Ht1 : free_of 91 [h1; h2; 58; m1; m2; 58; s1; s2; 93; 32]%N = true).
  { pose proof Hd as Hd'. cbn [forallb] in Hd'.
    repeat (apply andb_true_iff in Hd' as [?%digit_facts Hd']).
    unfold free_of. cbn [forallb].
    repeat match goal with
           | H : (_ =? 91)%N = false /\ _ |- _ =>
               rewrite (proj1 H); clear H
           end.
    reflexivity. }
  assert (Ht2 : free_of 91 (65%N :: u "sync Chat Thread - #" ++ n
                            ++ u "/INFO]: " ++ a :: rest) = true).
  { change (65%N :: u "sync Chat Thread - #" ++ n ++ u "/INFO]: " ++ a :: rest)
      with (u "Async Chat Thread - #" ++ n ++ u "/INFO]: " ++ a :: rest).
    pose proof (digits_no_bracket n Hn) as Hn'.
    unfold free_of in *. rewrite !forallb_app.
    rewrite Hn', Hfree. reflexivity. }
  assert (Hgo : forall r2,
             rmatch (Seq re_time r2)
               (chat_thread_line h1 h2 m1 m2 s1 s2 n (a :: rest)) []
               (fun s' c => Some (s', c)) = None ->
             js_match (Seq re_time r2)
               (chat_thread_line h1 h2 m1 m2 s1 s2 n (a :: rest)) = None).
  { intros r2 H0. unfold js_match. rewrite Hshape in *.
    now apply exec_from_two_brackets. }
  cbn in Hr.
  destruct Hr as [<-|[<-|[<-|[<-|[<-|[<-|[]]]]]]]; cbn [rule_re].
  - apply Hgo. now apply chat_rule_fails_unbracketed.
  - apply Hgo. now apply server_rule_fails_on_chat_line.
  - apply Hgo. now apply server_rule_fails_on_chat_line.
  - apply Hgo. now apply server_rule_fails_on_chat_line.
  - apply Hgo. now apply server_rule_fails_on_chat_line.
  - apply Hgo. now apply server_rule_fails_on_chat_line.
Qed.

(** The bridge takes a prefix before [<player>] only in brackets: a
    chat-thread line whose text starts neither with [<] nor with [[], and
    holds no [[] further on, is not relayed, and nothing else changes. *)
Theorem bridge_needs_bracketed_prefix (h1 h2 m1 m2 s1 s2 : N) (n : jsstring)
    (a : N) (rest : jsstring) (st : bridge) :
  forallb is_digit [h1; h2; m1; m2; s1; s2] = true ->
  forallb is_digit n = true ->
  (a =? 60)%N = false ->
  free_of 91 (a :: rest) = true ->
  handleLogLine (chat_thread_line h1 h2 m1 m2 s1 s2 n (a :: rest)) st = Normal st.
Proof.
  intros Hd Hn H60 Hfree. rewrite handleLogLine_parse. unfold parse.
  destruct (includes (u "/INFO]") _); [|reflexivity].
  destruct (first_match rules _) as [t|] eqn:Hf; [|reflexivity].
  apply first_match_Some in Hf as (r & m & Hr & Hm).
  now rewrite (unbracketed_chat_line_matches_nothing
                 h1 h2 m1 m2 s1 s2 n a rest r Hd Hn H60 Hfree Hr) in Hm.
Qed.

Lemma bridge_needs_bracketed_prefix_witness :
  handleLogLine
    (chat_thread_line 49 50 48 48 48 48 (u "7") (71%N :: u "uild] <Steve> hi"))
    (started [] [])
  = Normal (started [] []).
Proof. now apply bridge_needs_bracketed_prefix. Defined.
